(** * The chargeback operator (pkg/chargeback/operator.go)

    A shallow embedding of the orchestrator of the metering operator: the
    error classification used by the Hive client, the Hive and Presto
    connection loops, the Hive query retry loop, the work-queue error
    handler, the informer event handlers, the worker start-up and the
    [initialized] flag.

    Conventions.
    - A Go [error] interface value is [option error]: [None] is the nil
      interface, [Some e] a non-nil one whose dynamic type is the
      constructor of [e].  An error of pointer type points to its struct: the
      packages that make these errors put no nil pointer into an interface.
    - [time.Time] and [time.Duration] are integers counting nanoseconds.
    - What the code obtains from outside (the result of [hive.Connect], of
      [sql.Open], of a query, the instant the stop channel is closed) is read
      from an environment [Env]; what the code does to the outside is
      appended to a log of events.
    - Calls to the logger do not influence control flow or state and are
      left out. *)

From Stdlib Require Import ZArith List String Bool Lia.
From stdpp Require Import base option list gmap strings.
Import ListNotations.

Local Open Scope string_scope.
Local Open Scope list_scope.
Local Open Scope Z_scope.

(** ** Errors *)

(** The dynamic types of errors the operator distinguishes.  [io.EOF] is a
    package-level variable holding one fixed [*errors.errorString]; the only
    pointer comparison in the code is against it, so it has a constructor of
    its own and [ErrorString] stands for every other [*errors.errorString]
    (the values of [errors.New] and [fmt.Errorf]). *)
#[warnings="-register-all"]
Inductive error : Type :=
| EOF
| ErrorString (s : string)
| Errno (e : Z)
| OpError (Op Net : string) (Err : option error)
| SyscallError (Syscall : string) (Err : option error).

(** [syscall.EPIPE], errno 32 ([0x20]). *)
Definition EPIPE : Z := 32.

(** [err == io.EOF] *)
Definition is_EOF (err : option error) : bool :=
  match err with
  | Some EOF => true
  | _ => false
  end.

(** [err == syscall.EPIPE]: the dynamic type is [syscall.Errno] and the
    number is that of [EPIPE]. *)
Definition is_EPIPE (err : option error) : bool :=
  match err with
  | Some (Errno e) => e =? EPIPE
  | _ => false
  end.

(** [func isErrBrokenPipe(err error) bool] *)
Definition isErrBrokenPipe (err : option error) : bool :=
  match err with
  | Some (OpError _ _ netErr_Err) => is_EPIPE netErr_Err
  | _ => false
  end.

(** The test both branches of [hiveQueryer.Query] apply to a non-nil error:
    [err == io.EOF || isErrBrokenPipe(err)]. *)
Definition retriable (err : error) : bool :=
  is_EOF (Some err) || isErrBrokenPipe (Some err).

(** A fallible result: Go's [(value, error)] pair in which exactly one
    component is set. *)
Inductive Result (A : Type) : Type :=
| Ok (a : A)
| Err (e : error).
Arguments Ok {A} a.
Arguments Err {A} e.

(** ** Time *)

(** [time.Duration] counts nanoseconds in an [int64]. *)
Definition Second : Z := 1000000000.
Definition Minute : Z := 60 * Second.
Definition maxDuration : Z := 2 ^ 63 - 1.
Definition minDuration : Z := - 2 ^ 63.

(** The constants of the package. *)
Definition connBackoff : Z := Second * 15.
Definition maxConnWaitTime : Z := Minute * 3.
Definition defaultResyncPeriod : Z := Minute.

(** [t.Sub(u)]: the difference of two instants, saturated to the range of a
    [Duration].  [clock.Since(u)] is [clock.Now().Sub(u)]. *)
Definition Sub (t u : Z) : Z := Z.max minDuration (Z.min maxDuration (t - u)).

(** ** The environment and the world *)

(** One call of a function that dials out: the error it returns ([None]:
    it connected) and how long the call took. *)
Record Attempt : Type := {
  att_result : option error;
  att_took : N
}.

(** Everything the operator reads from outside.  Connections, database
    handles and channels are named by numbers: the [i]-th call of
    [hive.Connect] that succeeds returns connection [i]. *)
Record Env : Type := {
  (** the [i]-th call of [hive.Connect] *)
  hive_Connect_result : nat -> Attempt;
  (** the [i]-th call of [sql.Open] *)
  sql_Open_result : nat -> Attempt;
  (** the [n]-th call of [Connection.Query], made on connection [c] *)
  conn_Query_result : nat -> nat -> string -> option error;
  (** how late after its [n]-th tick a waiting fiber resumes *)
  tick_lag : nat -> N;
  (** which case the [n]-th select takes when both are ready *)
  select_prefers_stop : nat -> bool;
  (** the instant a channel is closed, if it ever is *)
  closed_at : nat -> option Z;
  (** the [Error()] text of an error, as [%v] prints it *)
  error_text : error -> string
}.

(** What the operator does to the outside, in the order it happens. *)
Inductive Event : Type :=
| Connected (c : nat) (host : string)
| ConnectFailed (host : string) (e : error)
| LogQueriesSet (c : nat) (b : bool)
| Queried (c : nat) (query : string) (r : option error)
| Closed (c : nat)
| Opened (db : nat) (connStr : string)
| OpenFailed (connStr : string) (e : error).

Record World : Type := {
  now : Z;
  connects : nat;
  opens : nat;
  queries : nat;
  selects : nat;
  events : list Event
}.

Definition emit (ev : Event) (w : World) : World :=
  {| now := now w; connects := connects w; opens := opens w;
     queries := queries w; selects := selects w;
     events := events w ++ [ev] |}.

Definition elapse (d : Z) (w : World) : World :=
  {| now := now w + d; connects := connects w; opens := opens w;
     queries := queries w; selects := selects w; events := events w |}.

(** [hive.Connect(host)] *)
Definition hive_Connect (env : Env) (host : string) (w : World) : Result nat * World :=
  let a := hive_Connect_result env (connects w) in
  let w1 :=
    {| now := now w + Z.of_N (att_took a); connects := S (connects w);
       opens := opens w; queries := queries w; selects := selects w;
       events := events w |} in
  match att_result a with
  | None => (Ok (connects w), emit (Connected (connects w) host) w1)
  | Some e => (Err e, emit (ConnectFailed host e) w1)
  end.

(** [sql.Open("prestgo", connStr)] *)
Definition sql_Open (env : Env) (connStr : string) (w : World) : Result nat * World :=
  let a := sql_Open_result env (opens w) in
  let w1 :=
    {| now := now w + Z.of_N (att_took a); connects := connects w;
       opens := S (opens w); queries := queries w; selects := selects w;
       events := events w |} in
  match att_result a with
  | None => (Ok (opens w), emit (Opened (opens w) connStr) w1)
  | Some e => (Err e, emit (OpenFailed connStr e) w1)
  end.

(** [hiveConn.Query(query)] on connection [c] *)
Definition conn_Query (env : Env) (c : nat) (query : string) (w : World)
  : option error * World :=
  let r := conn_Query_result env (queries w) c query in
  (r, emit (Queried c query r)
        {| now := now w; connects := connects w; opens := opens w;
           queries := S (queries w); selects := selects w;
           events := events w |}).

(** The two ways out of
<<
    select {
    case <-clock.Tick(connBackoff):
    case <-stopCh:
    }
>> *)
Inductive Woken : Type := ByTick | ByStop.

(** The select above, entered at [now w] on the stop channel [ch] ([None]:
    a nil channel, which is never ready).  The tick is ready [connBackoff]
    after the select is entered, and the fiber resumes [tick_lag] later at
    the latest; the stop case is ready from the instant the channel is
    closed.  The stop case is taken when it is ready before the tick, and
    may be taken when both are ready as the fiber resumes. *)
Definition select_tick_or_stop (env : Env) (ch : option nat) (w : World)
  : Woken * World :=
  let n := selects w in
  let w1 :=
    {| now := now w; connects := connects w; opens := opens w;
       queries := queries w; selects := S n; events := events w |} in
  let ready := now w + connBackoff in
  let resume := ready + Z.of_N (tick_lag env n) in
  match ch with
  | None => (ByTick, elapse (resume - now w) w1)
  | Some s =>
    match closed_at env s with
    | None => (ByTick, elapse (resume - now w) w1)
    | Some t =>
      if t <? ready then (ByStop, elapse (Z.max (now w) t - now w) w1)
      else if (t <=? resume) && select_prefers_stop env n
           then (ByStop, elapse (resume - now w) w1)
           else (ByTick, elapse (resume - now w) w1)
    end
  end.

(** The channel [ch] is not closed by the instant [t]: it is nil, or it is
    never closed, or it is closed later. *)
Definition open_until (env : Env) (ch : option nat) (t : Z) : Prop :=
  match ch with
  | None => True
  | Some s =>
    match closed_at env s with
    | None => True
    | Some t' => t < t'
    end
  end.

(** The world in which a fiber that entered the select in [w] resumes when
    the select is left by its tick. *)
Definition tick (env : Env) (w : World) : World :=
  {| now := now w + connBackoff + Z.of_N (tick_lag env (selects w));
     connects := connects w; opens := opens w; queries := queries w;
     selects := S (selects w); events := events w |}.

(** ** The Hive query client *)

Record hiveQueryer : Type := {
  hiveHost : string;
  logQueries : bool;
  (** [nil], or the connection in use *)
  hiveConn : option nat;
  (** [nil], or a channel *)
  stopCh : option nat
}.

Definition set_hiveConn (c : option nat) (q : hiveQueryer) : hiveQueryer :=
  {| hiveHost := hiveHost q; logQueries := logQueries q;
     hiveConn := c; stopCh := stopCh q |}.

(** [func newHiveQueryer(logger, clock, hiveHost, logQueries, stopCh)].  The
    composite literal names [clock], [hiveHost], [logger] and [logQueries];
    the fields [hiveConn] and [stopCh] keep their zero value, nil. *)
Definition newHiveQueryer (host : string) (logQ : bool) (stop : option nat)
  : hiveQueryer :=
  {| hiveHost := host; logQueries := logQ; hiveConn := None; stopCh := None |}.

Definition shutdownHive : error :=
  ErrorString "got shutdown signal, closing hive connection".

(** The [for] loop of [newHiveConn].  [fuel] bounds the number of
    iterations; [None] means the bound was reached. *)
Fixpoint newHiveConn_loop (env : Env) (fuel : nat) (q : hiveQueryer)
    (startTime : Z) (w : World) : option (Result nat * World) :=
  match fuel with
  | O => None
  | S fuel' =>
    match hive_Connect env (hiveHost q) w with
    | (Ok hive, w1) => Some (Ok hive, emit (LogQueriesSet hive (logQueries q)) w1)
    | (Err err, w1) =>
      if Sub (now w1) startTime >? maxConnWaitTime then Some (Err err, w1)
      else
        match select_tick_or_stop env (stopCh q) w1 with
        | (ByTick, w2) => newHiveConn_loop env fuel' q startTime w2
        | (ByStop, w2) => Some (Err shutdownHive, w2)
        end
    end
  end.

(** Iterations after which either connection loop has returned (see
    [newHiveConn_loop_fuel] and [newPrestoConn_loop_fuel]). *)
Definition connIterations : nat := 14.

(** [func (q *hiveQueryer) newHiveConn()], returning a connection or an
    error *)
Definition newHiveConn (env : Env) (q : hiveQueryer) (w : World)
  : option (Result nat * World) :=
  newHiveConn_loop env connIterations q (now w) w.

(** [func (q *hiveQueryer) getHiveConnection()], returning [q.hiveConn] and
    an error *)
Definition getHiveConnection (env : Env) (q : hiveQueryer) (w : World)
  : option (Result nat * hiveQueryer * World) :=
  match hiveConn q with
  | Some c => Some (Ok c, q, w)
  | None =>
    match newHiveConn env q w with
    | None => None
    | Some (Ok c, w1) => Some (Ok c, set_hiveConn (Some c) q, w1)
    | Some (Err err, w1) => Some (Err err, set_hiveConn None q, w1)
    end
  end.

(** [func (q *hiveQueryer) closeHiveConnection()] *)
Definition closeHiveConnection (q : hiveQueryer) (w : World)
  : hiveQueryer * World :=
  match hiveConn q with
  | Some c => (set_hiveConn None q, emit (Closed c) w)
  | None => (set_hiveConn None q, w)
  end.

Definition maxRetries : nat := 3.

Definition hiveGaveUp : error :=
  ErrorString
    "unable to create new hive connection after existing hive connection closed".

(** How an iteration of a loop ends: with [return err] or with
    [continue]. *)
Inductive Flow : Type :=
| Return (err : option error)
| Continue.

(** The body of the [for] loop of [Query]. *)
Definition Query_body (env : Env) (query : string) (q : hiveQueryer) (w : World)
  : option (Flow * hiveQueryer * World) :=
  match getHiveConnection env q w with
  | None => None
  | Some (Err err, q1, w1) =>
    if retriable err then
      let '(q2, w2) := closeHiveConnection q1 w1 in
      Some (Continue, q2, w2)
    else Some (Return (Some err), q1, w1)
  | Some (Ok c, q1, w1) =>
    match conn_Query env c query w1 with
    | (Some err, w2) =>
      if retriable err then
        let '(q3, w3) := closeHiveConnection q1 w2 in
        Some (Continue, q3, w3)
      else Some (Return (Some err), q1, w2)
    | (None, w2) => Some (Return None, q1, w2)
    end
  end.

(** The loop of [Query] with [left = maxRetries - retries] iterations to go,
    and the two statements after it. *)
Fixpoint Query_from (env : Env) (left : nat) (query : string)
    (q : hiveQueryer) (w : World) : option (option error * hiveQueryer * World) :=
  match left with
  | O =>
    let '(q1, w1) := closeHiveConnection q w in
    Some (Some hiveGaveUp, q1, w1)
  | S left' =>
    match Query_body env query q w with
    | None => None
    | Some (Return err, q1, w1) => Some (err, q1, w1)
    | Some (Continue, q1, w1) => Query_from env left' query q1 w1
    end
  end.

(** [func (q *hiveQueryer) Query(query string) error] *)
Definition Query (env : Env) (query : string) (q : hiveQueryer) (w : World)
  : option (option error * hiveQueryer * World) :=
  Query_from env maxRetries query q w.

(** ** The Presto connection *)

Record Config : Type := {
  Namespace : string;
  HiveHost : string;
  PrestoHost : string;
  PromHost : string;
  DisablePromsum : bool;
  LogReport : bool;
  LogDMLQueries : bool;
  LogDDLQueries : bool;
  PromsumInterval : Z;
  PromsumStepSize : Z;
  PromsumChunkSize : Z
}.

Definition shutdownPresto : error :=
  ErrorString "got shutdown signal, closing Presto connection".

(** [fmt.Errorf("failed to connect to presto: %v", err)] *)
Definition prestoFailed (env : Env) (err : error) : error :=
  ErrorString ("failed to connect to presto: " +:+ error_text env err).

(** The [for] loop of [newPrestoConn]; [fuel] as in [newHiveConn_loop]. *)
Fixpoint newPrestoConn_loop (env : Env) (fuel : nat) (connStr : string)
    (startTime : Z) (stop : option nat) (w : World)
  : option (Result nat * World) :=
  match fuel with
  | O => None
  | S fuel' =>
    match sql_Open env connStr w with
    | (Ok db, w1) => Some (Ok db, w1)
    | (Err err, w1) =>
      if Sub (now w1) startTime >? maxConnWaitTime
      then Some (Err (prestoFailed env err), w1)
      else
        match select_tick_or_stop env stop w1 with
        | (ByTick, w2) => newPrestoConn_loop env fuel' connStr startTime stop w2
        | (ByStop, w2) => Some (Err shutdownPresto, w2)
        end
    end
  end.

(** [func (c *Chargeback) newPrestoConn(stopCh)]; of the receiver it reads
    [c.cfg.PrestoHost] and the clock. *)
Definition newPrestoConn (env : Env) (cfg : Config) (stop : option nat) (w : World)
  : option (Result nat * World) :=
  let connStr := "presto://" +:+ PrestoHost cfg +:+ "/hive/default" in
  newPrestoConn_loop env connIterations connStr (now w) stop w.

(** ** Work queues *)

(** [workqueue.RateLimitingInterface]: the methods the operator calls.  A
    queue is a value of a type [Q]; a method takes the queue and returns it
    as the call leaves it.  Keys are the strings of
    [cache.MetaNamespaceKeyFunc]; [NumRequeues] returns an [int]. *)
Class RateLimitingInterface (Q : Type) : Type := {
  Add : string -> Q -> Q;
  AddRateLimited : string -> Q -> Q;
  Forget : string -> Q -> Q;
  NumRequeues : string -> Q -> Z * Q;
  ShutDown : Q -> Q
}.

(** [func (c *Chargeback) handleErr(logger, err, objType, key, queue)] *)
Definition handleErr {Q : Type} `{RateLimitingInterface Q}
    (err : option error) (objType : string) (key : string) (queue : Q) : Q :=
  match err with
  | None => Forget key queue
  | Some _ =>
    (* This controller retries 5 times if something goes wrong. *)
    let '(n, queue1) := NumRequeues key queue in
    if n <? 5 then AddRateLimited key queue1
    else Forget key queue1
  end.

(** A queue that also remembers which of its methods were called, in
    order. *)
Inductive QueueCall : Type :=
| CallAdd (key : string)
| CallAddRateLimited (key : string)
| CallForget (key : string)
| CallNumRequeues (key : string)
| CallShutDown.

Record Recorded (Q : Type) : Type := {
  inner : Q;
  calls : list QueueCall
}.
Arguments inner {Q} r.
Arguments calls {Q} r.

Definition record {Q : Type} (call : QueueCall) (f : Q -> Q) (r : Recorded Q)
  : Recorded Q :=
  {| inner := f (inner r); calls := calls r ++ [call] |}.

#[export] Instance Recorded_queue {Q : Type} `{RateLimitingInterface Q}
  : RateLimitingInterface (Recorded Q) := {
  Add key := record (CallAdd key) (Add key);
  AddRateLimited key := record (CallAddRateLimited key) (AddRateLimited key);
  Forget key := record (CallForget key) (Forget key);
  NumRequeues key r :=
    let '(n, q) := NumRequeues key (inner r) in
    (n, {| inner := q; calls := calls r ++ [CallNumRequeues key] |});
  ShutDown := record CallShutDown ShutDown
}.

(** A queue that starts recording now. *)
Definition fresh_record {Q : Type} (queue : Q) : Recorded Q :=
  {| inner := queue; calls := [] |}.

(** Modelled from the spec: the work queue itself (client-go's [workqueue]
    package is not among the sources).  "A deduplicated set of keys with
    per-key rate-limited retry": [add] appends a key that is not waiting
    already, [addRateLimited] counts one more requeue of the key and parks it
    for its backoff, [forget] resets the count, [numRequeues] reads it, and
    after [shutdown] nothing is added. *)
Record WorkQueue : Type := {
  waiting : list string;
  parked : list string;
  requeues : gmap string Z;
  shuttingDown : bool
}.

Definition emptyQueue : WorkQueue :=
  {| waiting := []; parked := []; requeues := ∅; shuttingDown := false |}.

Definition wq_Add (key : string) (q : WorkQueue) : WorkQueue :=
  if shuttingDown q then q
  else if bool_decide (key ∈ waiting q) then q
  else {| waiting := waiting q ++ [key]; parked := parked q;
          requeues := requeues q; shuttingDown := shuttingDown q |}.

Definition wq_NumRequeues (key : string) (q : WorkQueue) : Z :=
  default 0 (requeues q !! key).

Definition wq_AddRateLimited (key : string) (q : WorkQueue) : WorkQueue :=
  {| waiting := waiting q;
     parked := if shuttingDown q then parked q else parked q ++ [key];
     requeues := <[key := wq_NumRequeues key q + 1]> (requeues q);
     shuttingDown := shuttingDown q |}.

Definition wq_Forget (key : string) (q : WorkQueue) : WorkQueue :=
  {| waiting := waiting q; parked := parked q;
     requeues := delete key (requeues q); shuttingDown := shuttingDown q |}.

Definition wq_ShutDown (q : WorkQueue) : WorkQueue :=
  {| waiting := waiting q; parked := parked q;
     requeues := requeues q; shuttingDown := true |}.

#[export] Instance WorkQueue_queue : RateLimitingInterface WorkQueue := {
  Add := wq_Add;
  AddRateLimited := wq_AddRateLimited;
  Forget := wq_Forget;
  NumRequeues key q := (wq_NumRequeues key q, q);
  ShutDown := wq_ShutDown
}.

(** ** Informers and their event handlers *)

(** The seven resource kinds. *)
Inductive Kind : Type :=
| Report
| ScheduledReport
| ReportDataSource
| ReportGenerationQuery
| ReportPrometheusQuery
| StorageLocation
| PrestoTable.

#[export] Instance Kind_eq_dec : EqDecision Kind.
Proof. solve_decision. Defined.

Record ObjectMeta : Type := {
  meta_namespace : string;
  meta_name : string
}.

(** What an informer hands to a handler as [interface{}]: an API object of
    some kind with its metadata, or, on a delete that the watch missed, a
    [cache.DeletedFinalStateUnknown], which carries no metadata of its
    own. *)
Inductive Object : Type :=
| Resource (k : Kind) (m : ObjectMeta)
| DeletedFinalStateUnknown (key : string) (obj : Object).

(** Modelled from the spec: [cache.MetaNamespaceKeyFunc] (client-go, not
    among the sources).  "Compute key = namespace + "/" + name"; an object
    without metadata has no key. *)
Definition MetaNamespaceKeyFunc (obj : Object) : Result string :=
  match obj with
  | Resource _ m => Ok (meta_namespace m +:+ "/" +:+ meta_name m)
  | DeletedFinalStateUnknown _ _ => Err (ErrorString "object has no meta")
  end.

(** The three notifications of an informer. *)
Inductive Notification : Type :=
| OnAdd (obj : Object)
| OnUpdate (old current : Object)
| OnDelete (obj : Object).

(** [cache.ResourceEventHandlerFuncs] over the state [S] the handlers act
    on; a field left out of the literal is nil. *)
Record ResourceEventHandlerFuncs (S : Type) : Type := {
  AddFunc : option (Object -> S -> S);
  UpdateFunc : option (Object -> Object -> S -> S);
  DeleteFunc : option (Object -> S -> S)
}.
Arguments AddFunc {S} r.
Arguments UpdateFunc {S} r.
Arguments DeleteFunc {S} r.

(** A handler receives a notification: the function set for it runs, and
    nothing happens when it is nil. *)
Definition notify {S : Type} (h : ResourceEventHandlerFuncs S)
    (n : Notification) (s : S) : S :=
  match n with
  | OnAdd obj => match AddFunc h with Some f => f obj s | None => s end
  | OnUpdate old cur => match UpdateFunc h with Some f => f old cur s | None => s end
  | OnDelete obj => match DeleteFunc h with Some f => f obj s | None => s end
  end.

(** The state the handlers act on: the queue of each kind, and the rest of
    the operator, of which this file shows nothing. *)
Record Operator (Q R : Type) : Type := {
  queues : Kind -> Q;
  rest : R
}.
Arguments queues {Q R} o k.
Arguments rest {Q R} o.

Definition set_queue {Q R : Type} (k : Kind) (q : Q) (s : Operator Q R)
  : Operator Q R :=
  {| queues := fun k' => if decide (k' = k) then q else queues s k';
     rest := rest s |}.

(** The body shared by the [AddFunc] and [UpdateFunc] literals:
<<
    key, err := cache.MetaNamespaceKeyFunc(obj)
    if err == nil {
        queue.Add(key)
    }
>> *)
Definition enqueue {Q R : Type} `{RateLimitingInterface Q} (k : Kind)
    (obj : Object) (s : Operator Q R) : Operator Q R :=
  match MetaNamespaceKeyFunc obj with
  | Ok key => set_queue k (Add key (queues s k)) s
  | Err _ => s
  end.

(** [type informers struct]: the informers and queues in the order of
    [informerList] and [queueList], and the handlers added to the informer
    of each kind. *)
Record informers (S : Type) : Type := {
  informerList : list Kind;
  queueList : list Kind;
  handlers : Kind -> list (ResourceEventHandlerFuncs S)
}.
Arguments informerList {S} i.
Arguments queueList {S} i.
Arguments handlers {S} i k.

(** [func setupInformers(c *Chargeback, resyncPeriod)].
    [handleScheduledReportDeleted] is a method of the operator that this
    file only names. *)
Definition setupInformers {Q R : Type} `{RateLimitingInterface Q}
    (handleScheduledReportDeleted : Object -> Operator Q R -> Operator Q R)
  : informers (Operator Q R) :=
  let addUpdate (k : Kind) :=
    {| AddFunc := Some (fun obj => enqueue k obj);
       UpdateFunc := Some (fun old current => enqueue k current);
       DeleteFunc := None |} in
  {| informerList :=
       [StorageLocation; ReportPrometheusQuery; ReportGenerationQuery;
        ReportDataSource; PrestoTable; ScheduledReport; Report];
     queueList :=
       [StorageLocation; ReportPrometheusQuery; ReportGenerationQuery;
        ReportDataSource; PrestoTable; ScheduledReport; Report];
     handlers := fun k =>
       match k with
       | Report => [addUpdate Report]
       | ScheduledReport =>
         [{| AddFunc := Some (fun obj => enqueue ScheduledReport obj);
             UpdateFunc := Some (fun old current => enqueue ScheduledReport current);
             DeleteFunc := Some handleScheduledReportDeleted |}]
       | ReportDataSource => [addUpdate ReportDataSource]
       | ReportGenerationQuery => [addUpdate ReportGenerationQuery]
       | ReportPrometheusQuery => []
       | StorageLocation => []
       | PrestoTable => []
       end |}.

(** An informer delivers a notification to each of its handlers in turn. *)
Definition deliver {S : Type} (inf : informers S) (k : Kind)
    (n : Notification) (s : S) : S :=
  fold_left (fun s h => notify h n s) (handlers inf k) s.

(** [func (inf informers) ShutdownQueues()] *)
Definition ShutdownQueues {Q R : Type} `{RateLimitingInterface Q}
    (inf : informers (Operator Q R)) (s : Operator Q R) : Operator Q R :=
  fold_left (fun s k => set_queue k (ShutDown (queues s k)) s) (queueList inf) s.

(** ** The operator *)

(** [type Chargeback struct]: the configuration and the fields that the
    methods of this file assign. *)
Record Chargeback : Type := {
  cfg : Config;
  (** [*sql.DB], by the number [sql.Open] gave it *)
  prestoDB : option nat;
  (** the [db.Queryer] made of [prestoDB] *)
  prestoConn : option nat;
  c_hiveQueryer : option hiveQueryer;
  (** whether [promConn] is set *)
  promConn : bool;
  initialized : bool
}.

(** The operator [New] returns when [rest.InClusterConfig] succeeds: the
    composite literal sets [cfg], the logger, the clock and a channel; every
    other field has its zero value. *)
Definition New (config : Config) (inCluster : option error) : Result Chargeback :=
  match inCluster with
  | Some err => Err err
  | None =>
    Ok {| cfg := config; prestoDB := None; prestoConn := None;
          c_hiveQueryer := None; promConn := false; initialized := false |}
  end.

(** [func (c *Chargeback) setInitialized()] *)
Definition setInitialized (c : Chargeback) : Chargeback :=
  {| cfg := cfg c; prestoDB := prestoDB c; prestoConn := prestoConn c;
     c_hiveQueryer := c_hiveQueryer c; promConn := promConn c;
     initialized := true |}.

(** [func (c *Chargeback) isInitialized() bool] *)
Definition isInitialized (c : Chargeback) : bool := initialized c.

(** The assignments of the two functions [Run] hands to the errgroup:
    [c.prestoDB, err = c.newPrestoConn(stopCh)], then, when [err] is nil,
    [c.prestoConn = db.New(c.prestoDB, ...)]; and [c.hiveQueryer = ...]. *)
Definition set_prestoDB (db : option nat) (c : Chargeback) : Chargeback :=
  {| cfg := cfg c; prestoDB := db; prestoConn := prestoConn c;
     c_hiveQueryer := c_hiveQueryer c; promConn := promConn c;
     initialized := initialized c |}.

Definition set_prestoConn (db : option nat) (c : Chargeback) : Chargeback :=
  {| cfg := cfg c; prestoDB := prestoDB c; prestoConn := db;
     c_hiveQueryer := c_hiveQueryer c; promConn := promConn c;
     initialized := initialized c |}.

Definition presto_fiber (r : Result nat) (c : Chargeback) : Chargeback :=
  match r with
  | Ok db => set_prestoConn (Some db) (set_prestoDB (Some db) c)
  | Err _ => set_prestoDB None c
  end.

Definition set_hiveQueryer (q : hiveQueryer) (c : Chargeback) : Chargeback :=
  {| cfg := cfg c; prestoDB := prestoDB c; prestoConn := prestoConn c;
     c_hiveQueryer := Some q; promConn := promConn c;
     initialized := initialized c |}.

Definition set_promConn (c : Chargeback) : Chargeback :=
  {| cfg := cfg c; prestoDB := prestoDB c; prestoConn := prestoConn c;
     c_hiveQueryer := c_hiveQueryer c; promConn := true;
     initialized := initialized c |}.

(** [c.promConn, err = c.newPrometheusConn(...)] when the call fails: it
    returns nil and the error. *)
Definition unset_promConn (c : Chargeback) : Chargeback :=
  {| cfg := cfg c; prestoDB := prestoDB c; prestoConn := prestoConn c;
     c_hiveQueryer := c_hiveQueryer c; promConn := false;
     initialized := initialized c |}.

(** ** Fibers and wait groups *)

(** What a fiber started by [startWorkers] runs. *)
Inductive Work : Type :=
| runPrestoTableWorker
| runWorker (k : Kind) (i : Z)
| runScheduledReportRunner
| runPromsumWorker.

(** A fiber: its work, and the variable [wg] its closure captured, by
    address. *)
Record Fiber : Type := {
  work : Work;
  fiber_wg : nat
}.

(** The memory fibers share: the counter of each [sync.WaitGroup] variable,
    by address, and the fibers started so far. *)
Record Mem : Type := {
  heap : list Z;
  fibers : list Fiber
}.

(** A new variable holding the wait group [v]. *)
Definition alloc (v : Z) (m : Mem) : nat * Mem :=
  (length (heap m), {| heap := heap m ++ [v]; fibers := fibers m |}).

(** [wg.Add(delta)] on the variable at [a] *)
Definition wg_Add (a : nat) (delta : Z) (m : Mem) : Mem :=
  {| heap := alter (Z.add delta) a (heap m); fibers := fibers m |}.

(** [wg.Done()] *)
Definition wg_Done (a : nat) (m : Mem) : Mem := wg_Add a (-1) m.

(** [wg.Wait()] returns once the counter is zero. *)
Definition wg_Wait_ready (a : nat) (m : Mem) : bool :=
  match heap m !! a with
  | Some n => n =? 0
  | None => false
  end.

(** [go func() { ...; wg.Done() }()] with the closure's [wg] at [a] *)
Definition go (wk : Work) (a : nat) (m : Mem) : Mem :=
  {| heap := heap m; fibers := fibers m ++ [{| work := wk; fiber_wg := a |}] |}.

Definition threadiness : nat := 2.

(** The loop [for i := 0; i < threadiness; i++] of [startWorkers], with
    [todo = threadiness - i] iterations to go. *)
Fixpoint startWorkers_loop (todo : nat) (i : Z) (wg : nat) (m : Mem) : Mem :=
  match todo with
  | O => m
  | S todo' =>
    let m := go (runWorker ReportDataSource i) wg (wg_Add wg 1 m) in
    let m := go (runWorker ReportGenerationQuery i) wg (wg_Add wg 1 m) in
    let m := go (runWorker Report i) wg (wg_Add wg 1 m) in
    let m := go (runWorker ScheduledReport i) wg (wg_Add wg 1 m) in
    startWorkers_loop todo' (i + 1) wg m
  end.

(** [func (c *Chargeback) startWorkers(wg sync.WaitGroup, stopCh)].  The
    parameter [wg] is a variable of the callee that starts as a copy of the
    argument [wg_arg]; of the receiver the function reads
    [c.cfg.DisablePromsum]. *)
Definition startWorkers (c : Chargeback) (wg_arg : Z) (m : Mem) : Mem :=
  let '(wg, m) := alloc wg_arg m in
  let m := go runPrestoTableWorker wg (wg_Add wg 1 m) in
  let m := startWorkers_loop threadiness 0 wg m in
  let m := go runScheduledReportRunner wg (wg_Add wg 1 m) in
  if negb (DisablePromsum (cfg c))
  then go runPromsumWorker wg (wg_Add wg 1 m)
  else m.

(** ** [Run] as a transition system *)

(** The statements of [Run] at which the operator can stand. *)
Inductive RunAt : Type :=
| AtStart
| AtConnections
| AtPrometheus
| AtCacheSync
| AtPrestoProbe
| AtStartWorkers
| AtSetInitialized
| AtAwaitStop
| AtShutdown
| AtWait
| Returned (err : option error).

(** What [Run] starts and stops besides the workers.  [HiveClosed] is the
    deferred call [c.hiveQueryer.closeHiveConnection()], [PrestoClosed] the
    deferred call [c.prestoDB.Close()]. *)
Inductive Action : Type :=
| InformersStarted
| ServerStarted
| ServerStopped
| QueuesShutdownStarted
| PrestoClosed
| HiveClosed.

Record System : Type := {
  chargeback : Chargeback;
  run_at : RunAt;
  mem : Mem;
  (** the address of the variable [wg] of [Run] *)
  run_wg : nat;
  (** the fibers that have returned, by their position in [fibers] *)
  exited : list nat;
  (** whether the channel [stopCh] is closed *)
  stopped : bool;
  actions : list Action
}.

(** [Run] is called on the operator [New] returned. *)
Definition boot (c : Chargeback) : System :=
  {| chargeback := c; run_at := AtStart;
     mem := {| heap := []; fibers := [] |}; run_wg := 0%nat;
     exited := []; stopped := false; actions := [] |}.

Definition goto (p : RunAt) (s : System) : System :=
  {| chargeback := chargeback s; run_at := p; mem := mem s;
     run_wg := run_wg s; exited := exited s; stopped := stopped s;
     actions := actions s |}.

Definition with_chargeback (c : Chargeback) (s : System) : System :=
  {| chargeback := c; run_at := run_at s; mem := mem s;
     run_wg := run_wg s; exited := exited s; stopped := stopped s;
     actions := actions s |}.

Definition act (l : list Action) (s : System) : System :=
  {| chargeback := chargeback s; run_at := run_at s; mem := mem s;
     run_wg := run_wg s; exited := exited s; stopped := stopped s;
     actions := actions s ++ l |}.

(** [var wg sync.WaitGroup; c.startWorkers(wg, stopCh)] *)
Definition run_startWorkers (s : System) : System :=
  let '(wg, m) := alloc 0 (mem s) in
  let arg := default 0 (heap m !! wg) in
  {| chargeback := chargeback s; run_at := AtSetInitialized;
     mem := startWorkers (chargeback s) arg m;
     run_wg := wg; exited := exited s; stopped := stopped s;
     actions := actions s |}.

(** A fiber returns: its closure calls [wg.Done()]. *)
Definition fiber_exit (i : nat) (f : Fiber) (s : System) : System :=
  {| chargeback := chargeback s; run_at := run_at s;
     mem := wg_Done (fiber_wg f) (mem s);
     run_wg := run_wg s; exited := exited s ++ [i]; stopped := stopped s;
     actions := actions s |}.

Definition close_stop (s : System) : System :=
  {| chargeback := chargeback s; run_at := run_at s; mem := mem s;
     run_wg := run_wg s; exited := exited s; stopped := true;
     actions := actions s |}.

(** The two deferred calls of [Run], in the order they run when [Run]
    returns: [c.hiveQueryer.closeHiveConnection()], which leaves the client
    as [q1], and [c.prestoDB.Close()], which assigns no field. *)
Definition run_deferred (q1 : hiveQueryer) (s : System) : System :=
  act [HiveClosed; PrestoClosed]
      (with_chargeback (set_hiveQueryer q1 (chargeback s)) s).

(** Modelled from the spec: the bodies of the worker fibers
    ([runReportDataSourceWorker] and the others are not in this file).  The
    spec has the reconcilers and collectors they run send their DDL through
    the Hive client, that is, call [Query] on the client [c.hiveQueryer]
    they share with [Run].  What such a call does to the client it does in
    [getHiveConnection] and [closeHiveConnection], each under the client's
    mutex; [worker_call env q q1] is one of these two calls, taking the
    client from [q] to [q1].  Between two of them other fibers may run.  The
    relation does not say when a worker makes which call, so the system has
    every behaviour the workers can show and more: what holds of all its
    executions holds of theirs ([Query_from_worker_calls] shows that a call
    of [Query] is a sequence of such calls). *)
Inductive worker_call (env : Env) : hiveQueryer -> hiveQueryer -> Prop :=
| worker_gets q w r q1 w1 :
    getHiveConnection env q w = Some (r, q1, w1) -> worker_call env q q1
| worker_closes q w q1 w1 :
    closeHiveConnection q w = (q1, w1) -> worker_call env q q1.

(** The error of [newPrometheusConn]:
    [fmt.Errorf("can't connect to prometheus: %v", err)] *)
Definition prometheusFailed (env : Env) (err : error) : error :=
  ErrorString ("can't connect to prometheus: " +:+ error_text env err).

Definition cacheNotSynced : error :=
  ErrorString "cache for reports not synced in time".

(** One step of the system: a statement of [Run], the closing of the stop
    channel [stop] that [Run] was given (if it is a channel, and one that
    is closed at some time), a call of a running worker fiber on the Hive
    client, or a worker fiber returning.  The results of what [Run] calls
    outside this file ([promapi.NewClient], [WaitForCacheSync],
    [wait.PollUntil]) are left open; the two connection fibers run in a
    world [w] of their own, and [g.Wait] returns an error of either.  The
    two [defer] statements follow [g.Wait]: every later [return] runs the
    deferred calls, a [return] of the error of [g.Wait] does not. *)
Inductive step (env : Env) (stop : option nat) : System -> System -> Prop :=
| step_start s :
    run_at s = AtStart ->
    step env stop s (goto AtConnections (act [InformersStarted; ServerStarted] s))
| step_connected s w db wp c wh q :
    run_at s = AtConnections ->
    newPrestoConn env (cfg (chargeback s)) stop w = Some (Ok db, wp) ->
    getHiveConnection env
      (newHiveQueryer (HiveHost (cfg (chargeback s)))
         (LogDDLQueries (cfg (chargeback s))) stop) w = Some (Ok c, q, wh) ->
    step env stop s
      (goto AtPrometheus
         (with_chargeback
            (set_hiveQueryer q (presto_fiber (Ok db) (chargeback s))) s))
| step_connect_failed s w rp wp rh wh q err :
    run_at s = AtConnections ->
    newPrestoConn env (cfg (chargeback s)) stop w = Some (rp, wp) ->
    getHiveConnection env
      (newHiveQueryer (HiveHost (cfg (chargeback s)))
         (LogDDLQueries (cfg (chargeback s))) stop) w = Some (rh, q, wh) ->
    rp = Err err \/ rh = Err err ->
    step env stop s
      (goto (Returned (Some err))
         (with_chargeback
            (set_hiveQueryer q (presto_fiber rp (chargeback s))) s))
| step_prometheus s :
    run_at s = AtPrometheus ->
    step env stop s
      (goto AtCacheSync (with_chargeback (set_promConn (chargeback s)) s))
| step_prometheus_failed s err q w q1 w1 :
    run_at s = AtPrometheus ->
    c_hiveQueryer (chargeback s) = Some q ->
    closeHiveConnection q w = (q1, w1) ->
    step env stop s
      (goto (Returned (Some (prometheusFailed env err)))
         (run_deferred q1 (with_chargeback (unset_promConn (chargeback s)) s)))
| step_synced s :
    run_at s = AtCacheSync ->
    step env stop s (goto AtPrestoProbe s)
| step_not_synced s q w q1 w1 :
    run_at s = AtCacheSync ->
    c_hiveQueryer (chargeback s) = Some q ->
    closeHiveConnection q w = (q1, w1) ->
    step env stop s (goto (Returned (Some cacheNotSynced)) (run_deferred q1 s))
| step_probed s :
    run_at s = AtPrestoProbe ->
    step env stop s (goto AtStartWorkers s)
| step_startWorkers s :
    run_at s = AtStartWorkers ->
    step env stop s (run_startWorkers s)
| step_setInitialized s :
    run_at s = AtSetInitialized ->
    step env stop s
      (goto AtAwaitStop (with_chargeback (setInitialized (chargeback s)) s))
| step_got_stop s :
    run_at s = AtAwaitStop ->
    stopped s = true ->
    step env stop s (goto AtShutdown s)
| step_shutdown s :
    run_at s = AtShutdown ->
    step env stop s
      (goto AtWait (act [ServerStopped; QueuesShutdownStarted] s))
| step_waited s q w q1 w1 :
    run_at s = AtWait ->
    wg_Wait_ready (run_wg s) (mem s) = true ->
    c_hiveQueryer (chargeback s) = Some q ->
    closeHiveConnection q w = (q1, w1) ->
    step env stop s (goto (Returned None) (run_deferred q1 s))
| step_stop s ch t :
    stop = Some ch ->
    closed_at env ch = Some t ->
    stopped s = false ->
    step env stop s (close_stop s)
| step_fiber_exit s i f :
    stopped s = true ->
    fibers (mem s) !! i = Some f ->
    i ∉ exited s ->
    step env stop s (fiber_exit i f s)
| step_worker s i f q q1 :
    fibers (mem s) !! i = Some f ->
    i ∉ exited s ->
    c_hiveQueryer (chargeback s) = Some q ->
    worker_call env q q1 ->
    step env stop s (with_chargeback (set_hiveQueryer q1 (chargeback s)) s).

(** Executions: any number of steps. *)
Inductive steps (env : Env) (stop : option nat) : System -> System -> Prop :=
| steps_refl s : steps env stop s s
| steps_step s1 s2 s3 :
    steps env stop s1 s2 -> step env stop s2 s3 -> steps env stop s1 s3.

(** The fibers of [s] that are still running. *)
Definition running (s : System) : list Work :=
  omap (fun '(i, f) => if bool_decide (i ∈ exited s) then None else Some (work f))
       (imap pair (fibers (mem s))).

(** ** Reading the log *)

(** The events of a call of [Connection.Query]. *)
Definition is_Queried (ev : Event) : bool :=
  match ev with
  | Queried _ _ _ => true
  | _ => false
  end.

(** How many times [evs] records a call of [Connection.Query]. *)
Definition queried (evs : list Event) : nat := length (List.filter is_Queried evs).

(** The events of dialling: what [newHiveConn] emits. *)
Definition dialling (ev : Event) : Prop :=
  match ev with
  | Connected _ _ | ConnectFailed _ _ | LogQueriesSet _ _ => True
  | _ => False
  end.

(** [attempts env query n q w qn wn]: from [(q, w)], [n] iterations of the
    loop of [Query] in a row ended with [continue], leaving [(qn, wn)]. *)
Inductive attempts (env : Env) (query : string)
  : nat -> hiveQueryer -> World -> hiveQueryer -> World -> Prop :=
| attempts_none q w : attempts env query 0 q w q w
| attempts_more n q w q1 w1 qn wn :
    Query_body env query q w = Some (Continue, q1, w1) ->
    attempts env query n q1 w1 qn wn ->
    attempts env query (S n) q w qn wn.

(** ** Counting fibers and events *)

(** The workers of the queue of kind [k] among [ws]. *)
Definition queue_workers (k : Kind) (ws : list Work) : nat :=
  length (List.filter
            (fun wk => match wk with
                       | runWorker k' _ => bool_decide (k' = k)
                       | _ => false
                       end) ws).

(** The PrestoTable workers among [ws]. *)
Definition prestoTable_workers (ws : list Work) : nat :=
  length (List.filter
            (fun wk => match wk with runPrestoTableWorker => true | _ => false end)
            ws).

(** The worker fibers among [ws]: queue workers and PrestoTable workers. *)
Definition worker_fibers (ws : list Work) : nat :=
  length (List.filter
            (fun wk => match wk with
                       | runWorker _ _ | runPrestoTableWorker => true
                       | _ => false
                       end) ws).

(** What the fibers started by [startWorkers] on an empty memory run. *)
Definition started (c : Chargeback) : list Work :=
  map work (fibers (startWorkers c 0 {| heap := []; fibers := [] |})).

(** The object a notification is about. *)
Definition subject (n : Notification) : Object :=
  match n with
  | OnAdd obj => obj
  | OnUpdate _ current => current
  | OnDelete obj => obj
  end.

(** ** The wait groups of [Run] *)

(** The statements of [Run] before [startWorkers] has been called. *)
Definition before_workers (p : RunAt) : bool :=
  match p with
  | AtStart | AtConnections | AtPrometheus | AtCacheSync | AtPrestoProbe
  | AtStartWorkers => true
  | _ => false
  end.

(** What holds of the wait groups throughout [Run]: there is none until
    [startWorkers] is called, and from then on there are two, the variable
    of [Run] at address 0, whose counter is 0, and the parameter of
    [startWorkers] at address 1, to which every fiber refers. *)
Definition two_wait_groups (s : System) : Prop :=
  (heap (mem s) = [] /\ fibers (mem s) = [] /\
   (before_workers (run_at s) = true \/ exists err, run_at s = Returned err)) \/
  (before_workers (run_at s) = false /\ run_wg s = 0%nat /\
   (exists n, heap (mem s) = [0; n]) /\
   Forall (fun f => fiber_wg f = 1%nat) (fibers (mem s))).

(** ** Sample outsides, operators and queues *)

(** The error of a refused connection: [ECONNREFUSED], errno 111, wrapped
    twice. *)
Definition refused : error :=
  OpError "dial" "tcp" (Some (SyscallError "connect" (Some (Errno 111)))).

(** An outside in which nothing listens: every [hive.Connect] and every
    [sql.Open] is refused at once, and channel [0] is closed one second
    after the start. *)
Definition nobodyHome : Env :=
  {| hive_Connect_result := fun _ => {| att_result := Some refused; att_took := 0 |};
     sql_Open_result := fun _ => {| att_result := Some refused; att_took := 0 |};
     conn_Query_result := fun _ _ _ => None;
     tick_lag := fun _ => 0%N;
     select_prefers_stop := fun _ => true;
     closed_at := fun ch => match ch with O => Some Second | _ => None end;
     error_text := fun _ => "connection refused" |}.

(** [env] with the stop channels closed as [f] says. *)
Definition with_closed_at (f : nat -> option Z) (env : Env) : Env :=
  {| hive_Connect_result := hive_Connect_result env;
     sql_Open_result := sql_Open_result env;
     conn_Query_result := conn_Query_result env;
     tick_lag := tick_lag env;
     select_prefers_stop := select_prefers_stop env;
     closed_at := f;
     error_text := error_text env |}.

(** An outside in which Hive and Presto answer at once, every query
    succeeds, and channel [0] is closed after an hour. *)
Definition cleanStart : Env :=
  {| hive_Connect_result := fun _ => {| att_result := None; att_took := 0 |};
     sql_Open_result := fun _ => {| att_result := None; att_took := 0 |};
     conn_Query_result := fun _ _ _ => None;
     tick_lag := fun _ => 0%N;
     select_prefers_stop := fun _ => false;
     closed_at := fun ch => match ch with O => Some (60 * Minute) | _ => None end;
     error_text := fun _ => "" |}.

(** An outside in which Hive answers at once and every query fails with
    [failure]. *)
Definition failingQueries (failure : error) : Env :=
  {| hive_Connect_result := fun _ => {| att_result := None; att_took := 0 |};
     sql_Open_result := fun _ => {| att_result := None; att_took := 0 |};
     conn_Query_result := fun _ _ _ => Some failure;
     tick_lag := fun _ => 0%N;
     select_prefers_stop := fun _ => false;
     closed_at := fun _ => None;
     error_text := fun _ => "" |}.

(** A broken pipe as [isErrBrokenPipe] knows it. *)
Definition brokenPipe : error := OpError "write" "tcp" (Some (Errno EPIPE)).

(** An outside in which the first query fails with a broken pipe and every
    later one succeeds. *)
Definition oneBrokenPipe : Env :=
  {| hive_Connect_result := fun _ => {| att_result := None; att_took := 0 |};
     sql_Open_result := fun _ => {| att_result := None; att_took := 0 |};
     conn_Query_result := fun n _ _ =>
       match n with O => Some brokenPipe | _ => None end;
     tick_lag := fun _ => 0%N;
     select_prefers_stop := fun _ => false;
     closed_at := fun _ => None;
     error_text := fun _ => "" |}.

(** The world before anything happened. *)
Definition dawn : World :=
  {| now := 0; connects := 0; opens := 0; queries := 0; selects := 0;
     events := [] |}.

(** A world in which [hive.Connect] has been called eight times. *)
Definition eightDialled : World :=
  {| now := 0; connects := 8; opens := 0; queries := 0; selects := 0;
     events := [] |}.

(** A Hive client holding connection [7]. *)
Definition connectedQueryer : hiveQueryer :=
  {| hiveHost := "hive:10000"; logQueries := false;
     hiveConn := Some 7%nat; stopCh := None |}.

(** An error of the query itself. *)
Definition tableNotFound : error := ErrorString "Table not found: datasource_x".

(** An operator configuration for the examples. *)
Definition exampleConfig : Config :=
  {| Namespace := "metering"; HiveHost := "hive:10000";
     PrestoHost := "presto:8080"; PromHost := "http://prometheus:9090";
     DisablePromsum := false; LogReport := false; LogDMLQueries := false;
     LogDDLQueries := false; PromsumInterval := 30 * Second;
     PromsumStepSize := 60 * Second; PromsumChunkSize := 5 * Minute |}.

(** The operator [New] makes of [exampleConfig]. *)
Definition exampleOperator : Chargeback :=
  {| cfg := exampleConfig; prestoDB := None; prestoConn := None;
     c_hiveQueryer := None; promConn := false; initialized := false |}.

(** A work queue on which [key] has failed [n] times. *)
Definition failedTimes (n : Z) (key : string) : WorkQueue :=
  {| waiting := []; parked := []; requeues := {[ key := n ]};
     shuttingDown := false |}.

(** An operator whose queues are all empty work queues. *)
Definition idleOperator : Operator WorkQueue unit :=
  {| queues := fun _ => emptyQueue; rest := tt |}.

(** The metadata of a resource [metering/monthly]. *)
Definition monthlyReport : ObjectMeta :=
  {| meta_namespace := "metering"; meta_name := "monthly" |}.

(** ** Repeated failures of one key *)

(** [handleErr] called [n] times in a row with a non-nil error for the same
    key: the reconciler of that key keeps failing. *)
Definition fail_times {Q : Type} `{RateLimitingInterface Q}
    (n : nat) (err : error) (objType key : string) (queue : Q) : Q :=
  Nat.iter n (handleErr (Some err) objType key) queue.

(** The world [newHiveConn] leaves when nobody listens: fourteen refused
    calls, 195 seconds after [dawn]. *)
Definition nobodyHomeAfter : World :=
  {| now := 195 * Second; connects := 14; opens := 0; queries := 0;
     selects := 13;
     events := repeat (ConnectFailed "hive:10000" refused) 14 |}.


(** ** The connection in use *)



(** How many queries of [evs] succeeded. *)
Definition succeeded (evs : list Event) : nat :=
  length (List.filter
            (fun ev => match ev with Queried _ _ None => true | _ => false end)
            evs).

(** The settings of a client: everything but the connection. *)
Definition same_settings (q q' : hiveQueryer) : Prop :=
  hiveHost q' = hiveHost q /\ logQueries q' = logQueries q /\
  stopCh q' = stopCh q.



(** ** The stages of [Run] *)

(** The Hive client [Run] makes of the configuration [cf]: the settings
    [newHiveQueryer] gives it. *)
Definition client_of (cf : Config) (q : hiveQueryer) : Prop :=
  hiveHost q = HiveHost cf /\ logQueries q = LogDDLQueries cf /\
  stopCh q = None.

(** What [Run] has stored once the errgroup has returned nil: the Presto
    handle, the queryer made of it, and the Hive client. *)
Definition set_up (c : Chargeback) : Prop :=
  prestoDB c <> None /\ prestoConn c = prestoDB c /\
  exists q, c_hiveQueryer c = Some q /\ client_of (cfg c) q.

(** As [set_up], and the Hive client holds a connection. *)
Definition connected (c : Chargeback) : Prop :=
  prestoDB c <> None /\ prestoConn c = prestoDB c /\
  exists q cn, c_hiveQueryer c = Some q /\ client_of (cfg c) q /\
               hiveConn q = Some cn.

(** What holds of the operator at each statement of [Run], when [Run] was
    called on an operator that was not initialized.  Until the workers are
    started nobody but [Run] touches the Hive client, and the connection
    [Run] got stays stored; from then on a worker may have closed it. *)
Definition run_stage (s : System) : Prop :=
  match run_at s with
  | AtStart | AtConnections =>
    initialized (chargeback s) = false /\ fibers (mem s) = []
  | AtPrometheus =>
    initialized (chargeback s) = false /\ fibers (mem s) = [] /\
    connected (chargeback s)
  | AtCacheSync | AtPrestoProbe | AtStartWorkers =>
    initialized (chargeback s) = false /\ fibers (mem s) = [] /\
    connected (chargeback s) /\ promConn (chargeback s) = true
  | AtSetInitialized =>
    initialized (chargeback s) = false /\ (10 <= length (fibers (mem s)))%nat /\
    set_up (chargeback s) /\ promConn (chargeback s) = true
  | AtAwaitStop =>
    initialized (chargeback s) = true /\ (10 <= length (fibers (mem s)))%nat /\
    set_up (chargeback s) /\ promConn (chargeback s) = true
  | AtShutdown | AtWait | Returned None =>
    initialized (chargeback s) = true /\ (10 <= length (fibers (mem s)))%nat /\
    set_up (chargeback s) /\ promConn (chargeback s) = true /\
    stopped s = true
  | Returned (Some _) =>
    initialized (chargeback s) = false /\ fibers (mem s) = []
  end.

(** The fibers are counted: no fiber has returned twice, only fibers that
    were started have returned, and the wait group at address 1, if there
    is one, counts the fibers that have not returned. *)
Definition fibers_counted (s : System) : Prop :=
  NoDup (exited s) /\
  (forall i, i ∈ exited s -> (i < length (fibers (mem s)))%nat) /\
  (forall n, heap (mem s) !! 1%nat = Some n ->
             n = Z.of_nat (length (fibers (mem s))) - Z.of_nat (length (exited s))).

(** A run of the example operator up to the point where it is initialized,
    the stop channel is closed and the first Report worker has returned. *)
Definition sampleRunning : System :=
  let s1 := goto AtConnections
              (act [InformersStarted; ServerStarted] (boot exampleOperator)) in
  let q := set_hiveConn (Some 0%nat) (newHiveQueryer "hive:10000" false (Some 0%nat)) in
  let s2 := goto AtPrometheus
              (with_chargeback
                 (set_hiveQueryer q (presto_fiber (Ok 0%nat) (chargeback s1))) s1) in
  let s3 := goto AtCacheSync (with_chargeback (set_promConn (chargeback s2)) s2) in
  let s4 := run_startWorkers (goto AtStartWorkers (goto AtPrestoProbe s3)) in
  let s5 := goto AtAwaitStop (with_chargeback (setInitialized (chargeback s4)) s4) in
  fiber_exit 3 {| work := runWorker Report 0; fiber_wg := 1 |} (close_stop s5).

(** ** Synchronizing the informers *)

(** The loop of [func (inf informers) HasSynced() bool] over the informers
    still to ask; [synced k] is what [informer.HasSynced()] answers for the
    informer of kind [k]. *)
Fixpoint HasSynced_from (synced : Kind -> bool) (todo : list Kind) : bool :=
  match todo with
  | [] => true
  | k :: todo' => if synced k then HasSynced_from synced todo' else false
  end.

(** [func (inf informers) HasSynced() bool] *)
Definition HasSynced {S : Type} (inf : informers S) (synced : Kind -> bool) : bool :=
  HasSynced_from synced (informerList inf).

(** The loop of [func (inf informers) WaitForCacheSync(stopCh) bool];
    [waits k] is what [cache.WaitForCacheSync(stopCh, informer.HasSynced)]
    returns for the informer of kind [k].  Beside the result, the informers
    that were waited for, in order. *)
Fixpoint WaitForCacheSync_from (waits : Kind -> bool) (todo : list Kind)
  : bool * list Kind :=
  match todo with
  | [] => (true, [])
  | k :: todo' =>
    if negb (waits k) then (false, [k])
    else let '(r, waited) := WaitForCacheSync_from waits todo' in
         (r, k :: waited)
  end.

(** [func (inf informers) WaitForCacheSync(stopCh) bool] *)
Definition WaitForCacheSync {S : Type} (inf : informers S) (waits : Kind -> bool)
  : bool * list Kind :=
  WaitForCacheSync_from waits (informerList inf).

(** How many connections [evs] records as closed. *)
Definition closes (evs : list Event) : nat :=
  length (List.filter
            (fun ev => match ev with Closed _ => true | _ => false end) evs).







(** * Properties *)

(** ** Error classification *)

Lemma is_EPIPE_iff (err : option error) :
  is_EPIPE err = true <-> err = Some (Errno EPIPE).
Proof.
  destruct err as [[]|]; simpl; split; try discriminate.
  - intros ->%Z.eqb_eq. reflexivity.
  - intros [= ->]. reflexivity.
Qed.

(** C10.  [isErrBrokenPipe] answers true exactly on an error whose dynamic
    type is [*net.OpError] and whose [Err] field is [syscall.EPIPE] itself.
    On every other error it answers false: on [io.EOF], on nil, on an
    [EPIPE] wrapped in an [*os.SyscallError], whether that is the error or
    the [Err] field of an [*net.OpError].  Hence a non-nil error takes the
    reconnect path of [Query] exactly when it is [io.EOF] or has that
    shape. *)
Theorem isErrBrokenPipe_exact_shape :
  (forall err : option error,
      isErrBrokenPipe err = true <->
      exists op net, err = Some (OpError op net (Some (Errno EPIPE)))) /\
  (forall err : option error,
      (forall op net, err <> Some (OpError op net (Some (Errno EPIPE)))) ->
      isErrBrokenPipe err = false) /\
  isErrBrokenPipe (Some EOF) = false /\
  isErrBrokenPipe None = false /\
  (forall sc, isErrBrokenPipe (Some (SyscallError sc (Some (Errno EPIPE)))) = false) /\
  (forall op net sc,
      isErrBrokenPipe
        (Some (OpError op net (Some (SyscallError sc (Some (Errno EPIPE)))))) = false) /\
  (forall err : error,
      retriable err = true <->
      err = EOF \/ exists op net, err = OpError op net (Some (Errno EPIPE))).
Proof.
  assert (shape : forall err : option error,
             isErrBrokenPipe err = true <->
             exists op net, err = Some (OpError op net (Some (Errno EPIPE)))).
  { intros [[| | |op net inner|]|]; simpl; split;
      try discriminate; try (intros (? & ? & [=]); fail).
    - intros ->%is_EPIPE_iff. eauto.
    - intros (? & ? & [= -> -> ->]). reflexivity. }
  split; [exact shape|].
  split.
  { intros err other. destruct (isErrBrokenPipe err) eqn:E; [|reflexivity].
    apply shape in E as (op & net & ->). destruct (other op net). reflexivity. }
  do 4 (split; [reflexivity|]).
  intros err. unfold retriable. rewrite orb_true_iff. split.
  - intros [E|E].
    + destruct err; try discriminate. left. reflexivity.
    + apply shape in E as (op & net & [= ->]). right. eauto.
  - intros [->|(op & net & ->)]; [left|right]; reflexivity.
Qed.

(** ** The error handler of the work queues *)

Section HandleErr.
Context {Q : Type} `{RateLimitingInterface Q}.

(** Recording changes nothing of what the queue underneath goes through. *)
Lemma handleErr_inner (err : option error) (objType key : string)
    (r : Recorded Q) :
  inner (handleErr err objType key r) = handleErr err objType key (inner r).
Proof.
  destruct err as [e|]; simpl; [|reflexivity].
  destruct (NumRequeues key (inner r)) as [n q1]. simpl.
  destruct (n <? 5); reflexivity.
Qed.

(** C4.  With a non-nil error, [handleErr] asks the queue for
    [NumRequeues(key)] and then makes exactly one more call on it:
    [AddRateLimited(key)] when the answer is below 5, [Forget(key)] when it
    is 5 or more.  So [AddRateLimited(key)] is called exactly when
    [NumRequeues(key) < 5], [Forget(key)] exactly when it is not, and the key
    is never added by any other call. *)
Theorem handleErr_error_calls (err : error) (objType key : string) (queue : Q) :
  let n := fst (NumRequeues key queue) in
  let after := handleErr (Some err) objType key (fresh_record queue) in
  calls after =
    [CallNumRequeues key;
     if n <? 5 then CallAddRateLimited key else CallForget key] /\
  (In (CallAddRateLimited key) (calls after) <-> n < 5) /\
  (In (CallForget key) (calls after) <-> 5 <= n) /\
  (forall k, ~ In (CallAdd k) (calls after)) /\
  inner after =
    (if n <? 5 then AddRateLimited key (snd (NumRequeues key queue))
     else Forget key (snd (NumRequeues key queue))).
Proof.
  simpl. destruct (NumRequeues key queue) as [n q1] eqn:E. simpl.
  destruct (Z.ltb_spec n 5) as [lt|ge]; simpl.
  - repeat split; try (intros; lia); try tauto.
    + intros [[=]|[[=]|[]]].
    + intros k [[=]|[[=]|[]]].
  - repeat split; try (intros; lia); try tauto.
    + intros [[=]|[[=]|[]]].
    + intros k [[=]|[[=]|[]]].
Qed.

(** With a nil error the only call is [Forget(key)]. *)
Lemma handleErr_nil_calls (objType key : string) (queue : Q) :
  calls (handleErr None objType key (fresh_record queue)) = [CallForget key].
Proof. reflexivity. Qed.

End HandleErr.


(** On the work queue of the spec: a key that failed four times before is
    parked for another try, and one that failed five times is forgotten and
    neither waits nor is parked. *)
Example handleErr_fifth_try :
  let q := handleErr (Some EOF) "Report" "ns/r" (failedTimes 4 "ns/r") in
  parked q = ["ns/r"] /\ wq_NumRequeues "ns/r" q = 5.
Proof. vm_compute. split; reflexivity. Qed.

Example handleErr_gives_up :
  let q := handleErr (Some EOF) "Report" "ns/r" (failedTimes 5 "ns/r") in
  parked q = [] /\ waiting q = [] /\ wq_NumRequeues "ns/r" q = 0.
Proof. vm_compute. repeat split; reflexivity. Qed.

(** ** The connection loops *)

Lemma Sub_exceeds (t u : Z) :
  (Sub t u >? maxConnWaitTime) = (t - u >? maxConnWaitTime).
Proof.
  unfold Sub, maxConnWaitTime, Minute, Second, maxDuration, minDuration.
  change (2 ^ 63) with 9223372036854775808.
  destruct (Z.gtb_spec (t - u) (60 * 1000000000 * 3));
    destruct (Z.gtb_spec
                (Z.max (- 9223372036854775808)
                   (Z.min (9223372036854775808 - 1) (t - u)))
                (60 * 1000000000 * 3)); try reflexivity; lia.
Qed.

Lemma hive_Connect_now env host w r w1 :
  hive_Connect env host w = (r, w1) -> now w <= now w1.
Proof.
  unfold hive_Connect. destruct (att_result _); intros [= <- <-]; simpl; lia.
Qed.

Lemma sql_Open_now env connStr w r w1 :
  sql_Open env connStr w = (r, w1) -> now w <= now w1.
Proof.
  unfold sql_Open. destruct (att_result _); intros [= <- <-]; simpl; lia.
Qed.

(** A select left by its tick took the backoff and the time the fiber
    needed to resume. *)
Lemma select_by_tick env ch w w2 :
  select_tick_or_stop env ch w = (ByTick, w2) ->
  now w2 = now w + connBackoff + Z.of_N (tick_lag env (selects w)).
Proof.
  unfold select_tick_or_stop.
  destruct ch as [s|]; [destruct (closed_at env s) as [t|]|];
    repeat match goal with |- context [if ?b then _ else _] => destruct b end;
    intros [= <-]; simpl; lia.
Qed.

(** A nil channel is never ready: the select is left by its tick. *)
Lemma select_nil_channel env w :
  exists w2, select_tick_or_stop env None w = (ByTick, w2).
Proof. unfold select_tick_or_stop. eauto. Qed.

Lemma select_frame env ch w k w2 :
  select_tick_or_stop env ch w = (k, w2) ->
  events w2 = events w /\ queries w2 = queries w /\
  connects w2 = connects w /\ opens w2 = opens w /\ now w <= now w2.
Proof.
  unfold select_tick_or_stop.
  destruct ch as [s|]; [destruct (closed_at env s) as [t|]|];
    repeat match goal with |- context [if ?b then _ else _] => destruct b end;
    intros [= <- <-]; simpl; repeat split; unfold connBackoff, Second; lia.
Qed.

(** On a channel that is not closed by the time the fiber resumes, the
    select is left by its tick. *)
Lemma select_left_by_tick env ch w :
  open_until env ch (now w + connBackoff + Z.of_N (tick_lag env (selects w))) ->
  select_tick_or_stop env ch w = (ByTick, tick env w).
Proof.
  unfold select_tick_or_stop, open_until, tick, elapse.
  destruct ch as [s|]; [destruct (closed_at env s) as [t|]|].
  - intros late.
    destruct (Z.ltb_spec t (now w + connBackoff)); [lia|].
    destruct (Z.leb_spec t (now w + connBackoff + Z.of_N (tick_lag env (selects w))));
      [lia|].
    simpl. do 2 f_equal. lia.
  - intros _. simpl. do 2 f_equal. lia.
  - intros _. simpl. do 2 f_equal. lia.
Qed.

Lemma connBackoff_pos : 0 < connBackoff.
Proof. reflexivity. Qed.

Lemma ceiling_iterations (t start : Z) (k : nat) :
  Z.of_nat (connIterations - k) * connBackoff <= t - start ->
  (k <= 1)%nat ->
  t - start > maxConnWaitTime.
Proof.
  unfold connIterations, connBackoff, maxConnWaitTime, Minute, Second.
  intros. destruct k as [|[|k]]; simpl in *; lia.
Qed.

Section Loops.
Context (env : Env).

(** With [fuel] iterations to go and [connIterations - fuel] backoffs
    behind it, the Hive loop returns. *)
Lemma newHiveConn_loop_returns q start fuel w :
  (1 <= fuel)%nat ->
  Z.of_nat (connIterations - fuel) * connBackoff <= now w - start ->
  exists r, newHiveConn_loop env fuel q start w = Some r.
Proof.
  revert w. induction fuel as [|fuel IH]; intros w pos behind; [lia|].
  simpl. destruct (hive_Connect env (hiveHost q) w) as [[c|err] w1] eqn:E; [eauto|].
  apply hive_Connect_now in E. rewrite Sub_exceeds.
  destruct (Z.gtb_spec (now w1 - start) maxConnWaitTime) as [|within]; [eauto|].
  destruct (select_tick_or_stop env (stopCh q) w1) as [[] w2] eqn:sel; [|eauto].
  apply select_by_tick in sel.
  destruct fuel as [|fuel].
  - pose proof (ceiling_iterations (now w1) start 1). simpl in *. lia.
  - apply IH; [lia|]. pose proof connBackoff_pos.
    assert (Z.of_nat (connIterations - S fuel)
            <= Z.of_nat (connIterations - S (S fuel)) + 1) by lia.
    nia.
Qed.

Lemma newHiveConn_loop_more q start fuel w r :
  newHiveConn_loop env fuel q start w = Some r ->
  newHiveConn_loop env (S fuel) q start w = Some r.
Proof.
  revert w. induction fuel as [|fuel IH]; intros w; [discriminate|].
  intros run. simpl in run. change (newHiveConn_loop env (S (S fuel)) q start w)
    with (match hive_Connect env (hiveHost q) w with
          | (Ok hive, w1) => Some (Ok hive, emit (LogQueriesSet hive (logQueries q)) w1)
          | (Err err, w1) =>
            if Sub (now w1) start >? maxConnWaitTime then Some (Err err, w1)
            else
              match select_tick_or_stop env (stopCh q) w1 with
              | (ByTick, w2) => newHiveConn_loop env (S fuel) q start w2
              | (ByStop, w2) => Some (Err shutdownHive, w2)
              end
          end).
  destruct (hive_Connect env (hiveHost q) w) as [[c|err] w1]; [exact run|].
  destruct (Sub (now w1) start >? maxConnWaitTime); [exact run|].
  destruct (select_tick_or_stop env (stopCh q) w1) as [[] w2]; [|exact run].
  apply IH, run.
Qed.

(** The bound [connIterations] loses nothing: the Hive loop started at
    [now w] returns within it, and every larger bound gives the same
    result. *)
Lemma newHiveConn_loop_fuel q w :
  exists r, newHiveConn env q w = Some r /\
    forall fuel, (connIterations <= fuel)%nat ->
      newHiveConn_loop env fuel q (now w) w = Some r.
Proof.
  destruct (newHiveConn_loop_returns q (now w) connIterations w) as [r run].
  - unfold connIterations. lia.
  - rewrite Nat.sub_diag. simpl. lia.
  - exists r. split; [exact run|].
    intros fuel le. induction le as [|fuel le IH]; [exact run|].
    apply newHiveConn_loop_more, IH.
Qed.

(** While [hive.Connect] keeps failing, the Hive loop returns errors
    only. *)
Lemma newHiveConn_loop_failing q start :
  (forall i, att_result (hive_Connect_result env i) <> None) ->
  forall fuel w r w',
    newHiveConn_loop env fuel q start w = Some (r, w') -> exists err, r = Err err.
Proof.
  intros failing. induction fuel as [|fuel IH]; intros w r w'; [discriminate|].
  simpl. unfold hive_Connect at 1.
  destruct (att_result (hive_Connect_result env (connects w))) as [err|] eqn:E;
    [|destruct (failing _ E)].
  destruct (Sub _ start >? maxConnWaitTime); [intros [= <- <-]; eauto|].
  destruct (select_tick_or_stop env (stopCh q) _) as [[] w2].
  - apply IH.
  - intros [= <- <-]. eauto.
Qed.

Lemma newPrestoConn_loop_returns connStr start stop fuel w :
  (1 <= fuel)%nat ->
  Z.of_nat (connIterations - fuel) * connBackoff <= now w - start ->
  exists r, newPrestoConn_loop env fuel connStr start stop w = Some r.
Proof.
  revert w. induction fuel as [|fuel IH]; intros w pos behind; [lia|].
  simpl. destruct (sql_Open env connStr w) as [[c|err] w1] eqn:E; [eauto|].
  apply sql_Open_now in E. rewrite Sub_exceeds.
  destruct (Z.gtb_spec (now w1 - start) maxConnWaitTime) as [|within]; [eauto|].
  destruct (select_tick_or_stop env stop w1) as [[] w2] eqn:sel; [|eauto].
  apply select_by_tick in sel.
  destruct fuel as [|fuel].
  - pose proof (ceiling_iterations (now w1) start 1). simpl in *. lia.
  - apply IH; [lia|]. pose proof connBackoff_pos.
    assert (Z.of_nat (connIterations - S fuel)
            <= Z.of_nat (connIterations - S (S fuel)) + 1) by lia.
    nia.
Qed.

Lemma newPrestoConn_loop_more connStr start stop fuel w r :
  newPrestoConn_loop env fuel connStr start stop w = Some r ->
  newPrestoConn_loop env (S fuel) connStr start stop w = Some r.
Proof.
  revert w. induction fuel as [|fuel IH]; intros w; [discriminate|].
  intros run. simpl in run.
  change (newPrestoConn_loop env (S (S fuel)) connStr start stop w)
    with (match sql_Open env connStr w with
          | (Ok db, w1) => Some (Ok db, w1)
          | (Err err, w1) =>
            if Sub (now w1) start >? maxConnWaitTime
            then Some (Err (prestoFailed env err), w1)
            else
              match select_tick_or_stop env stop w1 with
              | (ByTick, w2) => newPrestoConn_loop env (S fuel) connStr start stop w2
              | (ByStop, w2) => Some (Err shutdownPresto, w2)
              end
          end).
  destruct (sql_Open env connStr w) as [[c|err] w1]; [exact run|].
  destruct (Sub (now w1) start >? maxConnWaitTime); [exact run|].
  destruct (select_tick_or_stop env stop w1) as [[] w2]; [|exact run].
  apply IH, run.
Qed.

Lemma newPrestoConn_loop_fuel cfg stop w :
  exists r, newPrestoConn env cfg stop w = Some r /\
    forall fuel, (connIterations <= fuel)%nat ->
      newPrestoConn_loop env fuel
        ("presto://" +:+ PrestoHost cfg +:+ "/hive/default") (now w) stop w
      = Some r.
Proof.
  destruct (newPrestoConn_loop_returns
              ("presto://" +:+ PrestoHost cfg +:+ "/hive/default")
              (now w) stop connIterations w) as [r run].
  - unfold connIterations. lia.
  - rewrite Nat.sub_diag. simpl. lia.
  - exists r. split; [exact run|].
    intros fuel le. induction le as [|fuel le IH]; [exact run|].
    apply newPrestoConn_loop_more, IH.
Qed.

Lemma newPrestoConn_loop_failing connStr start stop :
  (forall i, att_result (sql_Open_result env i) <> None) ->
  forall fuel w r w',
    newPrestoConn_loop env fuel connStr start stop w = Some (r, w') ->
    exists err, r = Err err.
Proof.
  intros failing. induction fuel as [|fuel IH]; intros w r w'; [discriminate|].
  simpl. unfold sql_Open at 1.
  destruct (att_result (sql_Open_result env (opens w))) as [err|] eqn:E;
    [|destruct (failing _ E)].
  destruct (Sub _ start >? maxConnWaitTime); [intros [= <- <-]; eauto|].
  destruct (select_tick_or_stop env stop _) as [[] w2].
  - apply IH.
  - intros [= <- <-]. eauto.
Qed.

(** While [hive.Connect] keeps failing and the stop channel stays open, the
    Hive loop returns only once the ceiling is passed. *)
Lemma newHiveConn_loop_not_early q start :
  (forall i, att_result (hive_Connect_result env i) <> None) ->
  (forall t, open_until env (stopCh q) t) ->
  forall fuel w r w',
    newHiveConn_loop env fuel q start w = Some (r, w') ->
    Sub (now w') start > maxConnWaitTime.
Proof.
  intros failing open. induction fuel as [|fuel IH]; intros w r w'; [discriminate|].
  simpl. unfold hive_Connect at 1.
  destruct (att_result (hive_Connect_result env (connects w))) as [err|] eqn:E;
    [|destruct (failing _ E)].
  destruct (Sub _ start >? maxConnWaitTime) eqn:over.
  - intros [= <- <-]. apply Z.gtb_gt, over.
  - rewrite select_left_by_tick by apply open. apply IH.
Qed.

Lemma newPrestoConn_loop_not_early connStr start stop :
  (forall i, att_result (sql_Open_result env i) <> None) ->
  (forall t, open_until env stop t) ->
  forall fuel w r w',
    newPrestoConn_loop env fuel connStr start stop w = Some (r, w') ->
    Sub (now w') start > maxConnWaitTime.
Proof.
  intros failing open. induction fuel as [|fuel IH]; intros w r w'; [discriminate|].
  simpl. unfold sql_Open at 1.
  destruct (att_result (sql_Open_result env (opens w))) as [err|] eqn:E;
    [|destruct (failing _ E)].
  destruct (Sub _ start >? maxConnWaitTime) eqn:over.
  - intros [= <- <-]. apply Z.gtb_gt, over.
  - rewrite select_left_by_tick by apply open. apply IH.
Qed.

End Loops.


(** C7.  Both connection loops wait [connBackoff], 15 seconds, between a
    failed attempt and the next one, and give up at the first failed attempt
    before or after which more than [maxConnWaitTime], 3 minutes, have
    passed since the loop started: the Hive loop returns the error of that
    attempt, the Presto loop an error made of it.  After a failed attempt
    within the ceiling each loop does back off and try again: unless the
    stop channel is closed by then, the select is left by its tick, the
    fiber resumes [connBackoff] (and the time it needs to resume) after the
    failure, having made no call in between, and the loop goes on with its
    next attempt.  So when the attempts keep failing each loop returns,
    within [connIterations] iterations and the same under every larger
    bound, and what it returns is a non-nil error; and while the stop
    channel stays open it returns only once more than [maxConnWaitTime]
    have passed. *)
Theorem connection_loops_backoff_and_ceiling (env : Env) :
  connBackoff = 15 * Second /\ maxConnWaitTime = 3 * Minute /\
  (forall q start w err w1 fuel,
      hive_Connect env (hiveHost q) w = (Err err, w1) ->
      (Sub (now w) start > maxConnWaitTime \/
       Sub (now w1) start > maxConnWaitTime ->
       newHiveConn_loop env (S fuel) q start w = Some (Err err, w1)) /\
      (Sub (now w1) start <= maxConnWaitTime ->
       forall w2, select_tick_or_stop env (stopCh q) w1 = (ByTick, w2) ->
         now w2 = now w1 + connBackoff + Z.of_N (tick_lag env (selects w1)) /\
         newHiveConn_loop env (S fuel) q start w
         = newHiveConn_loop env fuel q start w2) /\
      (Sub (now w1) start <= maxConnWaitTime ->
       open_until env (stopCh q)
         (now w1 + connBackoff + Z.of_N (tick_lag env (selects w1))) ->
       select_tick_or_stop env (stopCh q) w1 = (ByTick, tick env w1) /\
       now (tick env w1)
       = now w1 + connBackoff + Z.of_N (tick_lag env (selects w1)) /\
       connects (tick env w1) = connects w1 /\
       newHiveConn_loop env (S fuel) q start w
       = newHiveConn_loop env fuel q start (tick env w1))) /\
  (forall q w,
      (forall i, att_result (hive_Connect_result env i) <> None) ->
      exists err w',
        newHiveConn env q w = Some (Err err, w') /\
        (forall fuel, (connIterations <= fuel)%nat ->
           newHiveConn_loop env fuel q (now w) w = Some (Err err, w')) /\
        ((forall t, open_until env (stopCh q) t) ->
         Sub (now w') (now w) > maxConnWaitTime)) /\
  (forall connStr start stop w err w1 fuel,
      sql_Open env connStr w = (Err err, w1) ->
      (Sub (now w) start > maxConnWaitTime \/
       Sub (now w1) start > maxConnWaitTime ->
       newPrestoConn_loop env (S fuel) connStr start stop w
       = Some (Err (prestoFailed env err), w1)) /\
      (Sub (now w1) start <= maxConnWaitTime ->
       forall w2, select_tick_or_stop env stop w1 = (ByTick, w2) ->
         now w2 = now w1 + connBackoff + Z.of_N (tick_lag env (selects w1)) /\
         newPrestoConn_loop env (S fuel) connStr start stop w
         = newPrestoConn_loop env fuel connStr start stop w2) /\
      (Sub (now w1) start <= maxConnWaitTime ->
       open_until env stop
         (now w1 + connBackoff + Z.of_N (tick_lag env (selects w1))) ->
       select_tick_or_stop env stop w1 = (ByTick, tick env w1) /\
       now (tick env w1)
       = now w1 + connBackoff + Z.of_N (tick_lag env (selects w1)) /\
       opens (tick env w1) = opens w1 /\
       newPrestoConn_loop env (S fuel) connStr start stop w
       = newPrestoConn_loop env fuel connStr start stop (tick env w1))) /\
  (forall cfg stop w,
      (forall i, att_result (sql_Open_result env i) <> None) ->
      exists err w',
        newPrestoConn env cfg stop w = Some (Err err, w') /\
        (forall fuel, (connIterations <= fuel)%nat ->
           newPrestoConn_loop env fuel
             ("presto://" +:+ PrestoHost cfg +:+ "/hive/default") (now w) stop w
           = Some (Err err, w')) /\
        ((forall t, open_until env stop t) ->
         Sub (now w') (now w) > maxConnWaitTime)).
Proof.
  split; [reflexivity|]. split; [reflexivity|].
  split; [|split; [|split]].
  - intros q start w err w1 fuel attempt. simpl. rewrite attempt.
    split; [|split].
    + intros over. apply hive_Connect_now in attempt.
      assert (late : (Sub (now w1) start >? maxConnWaitTime) = true).
      { rewrite Sub_exceeds. apply Z.gtb_gt.
        destruct over as [over|over]; apply Z.gtb_gt in over;
          rewrite Sub_exceeds in over; apply Z.gtb_gt in over; lia. }
      rewrite late. reflexivity.
    + intros within. destruct (Z.gtb_spec (Sub (now w1) start) maxConnWaitTime);
        [lia|].
      intros w2 sel. rewrite sel. split; [|reflexivity].
      exact (select_by_tick _ _ _ _ sel).
    + intros within open.
      destruct (Z.gtb_spec (Sub (now w1) start) maxConnWaitTime); [lia|].
      rewrite (select_left_by_tick _ _ _ open).
      split; [reflexivity|]. split; [reflexivity|]. split; reflexivity.
  - intros q w failing.
    destruct (newHiveConn_loop_fuel env q w) as ([r w'] & run & more).
    destruct (newHiveConn_loop_failing env q (now w) failing _ _ _ _ run)
      as [err ->].
    exists err, w'. split; [exact run|]. split; [exact more|].
    intros open.
    exact (newHiveConn_loop_not_early env q (now w) failing open _ _ _ _ run).
  - intros connStr start stop w err w1 fuel attempt. simpl. rewrite attempt.
    split; [|split].
    + intros over. apply sql_Open_now in attempt.
      assert (late : (Sub (now w1) start >? maxConnWaitTime) = true).
      { rewrite Sub_exceeds. apply Z.gtb_gt.
        destruct over as [over|over]; apply Z.gtb_gt in over;
          rewrite Sub_exceeds in over; apply Z.gtb_gt in over; lia. }
      rewrite late. reflexivity.
    + intros within. destruct (Z.gtb_spec (Sub (now w1) start) maxConnWaitTime);
        [lia|].
      intros w2 sel. rewrite sel. split; [|reflexivity].
      exact (select_by_tick _ _ _ _ sel).
    + intros within open.
      destruct (Z.gtb_spec (Sub (now w1) start) maxConnWaitTime); [lia|].
      rewrite (select_left_by_tick _ _ _ open).
      split; [reflexivity|]. split; [reflexivity|]. split; reflexivity.
  - intros cfg stop w failing.
    destruct (newPrestoConn_loop_fuel env cfg stop w) as ([r w'] & run & more).
    destruct (newPrestoConn_loop_failing env _ (now w) stop failing _ _ _ _ run)
      as [err ->].
    exists err, w'. split; [exact run|]. split; [exact more|].
    intros open.
    exact (newPrestoConn_loop_not_early env _ (now w) stop failing open _ _ _ _ run).
Qed.

(** With nobody listening the Hive loop makes fourteen attempts over 195
    seconds and returns the error of the last one. *)
Example newHiveConn_nobodyHome :
  exists w',
    newHiveConn nobodyHome (newHiveQueryer "hive:10000" false None) dawn
    = Some (Err refused, w') /\
    now w' = 195 * Second /\ connects w' = 14%nat.
Proof. eexists. vm_compute. repeat split; reflexivity. Qed.

(** C3.  The stop channel handed to [newHiveQueryer] is not stored, so the
    select of the Hive loop waits on a nil channel and is left by its tick
    only: whenever and whether the channel is closed, the loop returns the
    same.  With nobody listening and the channel closed after one second,
    the Hive loop still backs off for 195 seconds and returns the error of
    [hive.Connect]; the Presto loop, which receives the channel itself,
    returns its shutdown error after that one second. *)
Theorem newHiveConn_misses_shutdown :
  (forall host logQ stop, stopCh (newHiveQueryer host logQ stop) = None) /\
  (forall env host logQ stop w,
      exists w2,
        select_tick_or_stop env (stopCh (newHiveQueryer host logQ stop)) w
        = (ByTick, w2)) /\
  (forall env f host logQ stop fuel start w,
      newHiveConn_loop (with_closed_at f env) fuel
        (newHiveQueryer host logQ stop) start w
      = newHiveConn_loop env fuel (newHiveQueryer host logQ stop) start w) /\
  (exists w',
      newHiveConn nobodyHome (newHiveQueryer "hive:10000" false (Some 0%nat)) dawn
      = Some (Err refused, w') /\ now w' = 195 * Second) /\
  (exists w',
      newPrestoConn nobodyHome exampleConfig (Some 0%nat) dawn
      = Some (Err shutdownPresto, w') /\ now w' = Second).
Proof.
  split; [reflexivity|]. split; [|split; [|split]].
  - intros env host logQ stop w. apply select_nil_channel.
  - intros env f host logQ stop fuel start.
    induction fuel as [|fuel IH]; intros w; [reflexivity|].
    simpl. unfold hive_Connect. simpl.
    destruct (att_result (hive_Connect_result env (connects w))); [|reflexivity].
    destruct (Sub _ start >? maxConnWaitTime); [reflexivity|].
    apply IH.
  - eexists. vm_compute. split; reflexivity.
  - eexists. vm_compute. split; reflexivity.
Qed.

(** ** The Hive query loop *)

Lemma queried_app (a b : list Event) : queried (a ++ b) = (queried a + queried b)%nat.
Proof. unfold queried. rewrite List.filter_app, List.length_app. reflexivity. Qed.

Lemma queried_dialling (evs : list Event) : Forall dialling evs -> queried evs = 0%nat.
Proof.
  induction 1 as [|ev evs d _ IH]; [reflexivity|].
  destruct ev; try destruct d; exact IH.
Qed.

Lemma closeHiveConnection_spec q w :
  closeHiveConnection q w =
  (set_hiveConn None q,
   match hiveConn q with Some c => emit (Closed c) w | None => w end).
Proof. unfold closeHiveConnection. destruct (hiveConn q); reflexivity. Qed.

Lemma set_hiveConn_same q : set_hiveConn (hiveConn q) q = q.
Proof. destruct q; reflexivity. Qed.

Section QueryLoop.
Context (env : Env).

(** What the Hive loop leaves in the log: events of dialling only, and a
    connection it returns was dialled by it. *)
Lemma newHiveConn_loop_log q start fuel w r w' :
  newHiveConn_loop env fuel q start w = Some (r, w') ->
  exists evs,
    events w' = events w ++ evs /\ Forall dialling evs /\
    queries w' = queries w /\ (connects w <= connects w')%nat /\
    match r with
    | Ok c => (connects w <= c < connects w')%nat /\ In (Connected c (hiveHost q)) evs
    | Err _ => True
    end.
Proof.
  revert w. induction fuel as [|fuel IH]; intros w; [discriminate|].
  simpl. unfold hive_Connect.
  destruct (att_result (hive_Connect_result env (connects w))) as [err|].
  - match goal with |- context [emit ?ev ?w0] => set (w1 := emit ev w0) end.
    destruct (Sub (now w1) start >? maxConnWaitTime).
    + intros [= <- <-]. exists [ConnectFailed (hiveHost q) err]. simpl.
      repeat split; [repeat constructor|lia].
    + destruct (select_tick_or_stop env (stopCh q) w1) as [[] w2] eqn:sel.
      * intros run. apply IH in run as (evs & ev & dial & qs & cs & fresh).
        assert (same : events w2 = events w1 /\ queries w2 = queries w1
                       /\ connects w2 = connects w1).
        { revert sel. unfold select_tick_or_stop.
          destruct (stopCh q) as [s|]; [destruct (closed_at env s)|];
            repeat match goal with
                   | |- context [if ?b then _ else _] => destruct b
                   end; intros [= <-]; repeat split. }
        destruct same as (sev & sq & sc).
        exists (ConnectFailed (hiveHost q) err :: evs).
        rewrite ev, sev, qs, sq. subst w1. simpl in *.
        rewrite <- app_assoc. repeat split.
        -- constructor; [exact I|exact dial].
        -- lia.
        -- destruct r; [|exact I]. destruct fresh. split; [lia|]. right. assumption.
      * intros [= <- <-].
        assert (same : events w2 = events w1 /\ queries w2 = queries w1
                       /\ connects w2 = connects w1).
        { revert sel. unfold select_tick_or_stop.
          destruct (stopCh q) as [s|]; [destruct (closed_at env s)|];
            repeat match goal with
                   | |- context [if ?b then _ else _] => destruct b
                   end; intros [= <-]; repeat split. }
        destruct same as (sev & sq & sc).
        exists [ConnectFailed (hiveHost q) err]. rewrite sev, sq, sc. subst w1.
        simpl. repeat split; [repeat constructor|lia].
  - intros [= <- <-].
    exists [Connected (connects w) (hiveHost q);
            LogQueriesSet (connects w) (logQueries q)].
    simpl. rewrite <- app_assoc. repeat split; try lia.
    + repeat constructor.
    + left. reflexivity.
Qed.

(** The Hive loop calls [hive.Connect] at least once. *)
Lemma newHiveConn_loop_dials q start fuel w r w' :
  newHiveConn_loop env fuel q start w = Some (r, w') ->
  (connects w < connects w')%nat.
Proof.
  destruct fuel as [|fuel]; [discriminate|].
  simpl. unfold hive_Connect.
  destruct (att_result (hive_Connect_result env (connects w))) as [err|].
  - match goal with |- context [emit ?ev ?w0] => set (w1 := emit ev w0) end.
    assert (c1 : connects w1 = S (connects w)) by reflexivity. clearbody w1.
    destruct (Sub (now w1) start >? maxConnWaitTime).
    + intros [= <- <-]. lia.
    + destruct (select_tick_or_stop env (stopCh q) w1) as [[] w2] eqn:sel;
        apply select_frame in sel as (_ & _ & c2 & _).
      * intros run.
        apply newHiveConn_loop_log in run as (_ & _ & _ & _ & le & _). lia.
      * intros [= <- <-]. lia.
  - intros [= <- <-]. simpl. lia.
Qed.

(** [getHiveConnection] returns; on success the connection it returns is
    the one stored, either the one stored before or one just dialled. *)
Lemma getHiveConnection_returns q w :
  exists r q1 w1 evs,
    getHiveConnection env q w = Some (r, q1, w1) /\
    events w1 = events w ++ evs /\ Forall dialling evs /\
    (connects w <= connects w1)%nat /\
    match r with
    | Ok c =>
      hiveConn q1 = Some c /\
      ((hiveConn q = Some c /\ q1 = q /\ w1 = w) \/
       (hiveConn q = None /\ q1 = set_hiveConn (Some c) q /\
        (connects w <= c < connects w1)%nat /\
        In (Connected c (hiveHost q)) evs))
    | Err _ => hiveConn q = None /\ q1 = set_hiveConn None q
    end.
Proof.
  unfold getHiveConnection. destruct (hiveConn q) as [c|] eqn:stored.
  - exists (Ok c), q, w, []. rewrite app_nil_r. repeat split; auto.
  - destruct (newHiveConn_loop_fuel env q w) as ([r w1] & run & _).
    rewrite run.
    apply newHiveConn_loop_log in run as (evs & ev & dial & _ & cs & fresh).
    destruct r as [c|err].
    + exists (Ok c), (set_hiveConn (Some c) q), w1, evs.
      destruct fresh as [range dialled].
      do 5 (split; [auto; fail|]). right. auto.
    + exists (Err err), (set_hiveConn None q), w1, evs. repeat split; auto.
Qed.

(** With no connection stored, [getHiveConnection] dials: it calls
    [hive.Connect] at least once, and a connection it returns is the one
    the last of these calls made. *)
Lemma getHiveConnection_redials q w :
  hiveConn q = None ->
  exists r q1 w1 dial,
    getHiveConnection env q w = Some (r, q1, w1) /\
    events w1 = events w ++ dial /\ Forall dialling dial /\
    (connects w < connects w1)%nat /\
    match r with
    | Ok c =>
      hiveConn q1 = Some c /\ (connects w <= c < connects w1)%nat /\
      In (Connected c (hiveHost q)) dial
    | Err _ => hiveConn q1 = None
    end.
Proof.
  intros none.
  destruct (getHiveConnection_returns q w)
    as (r & q1 & w1 & dial & got & ev & dials & _ & what).
  exists r, q1, w1, dial. split; [exact got|]. split; [exact ev|].
  split; [exact dials|]. split.
  - revert got. unfold getHiveConnection. rewrite none.
    destruct (newHiveConn env q w) as [[r' w'']|] eqn:loop; [|discriminate].
    apply newHiveConn_loop_dials in loop.
    destruct r'; intros [= _ _ <-]; exact loop.
  - destruct r as [c|err].
    + destruct what as (stored & [(was & _)|(_ & _ & range & dialled)]);
        [rewrite none in was; discriminate was|auto].
    + destruct what as (_ & ->). reflexivity.
Qed.

(** What one iteration of the loop of [Query] does.  It ends with
    [continue] exactly on an error that is [io.EOF] or a broken pipe, and
    then no connection is stored any more; when that error came from the
    query, the connection the query ran on has just been closed. *)
Lemma Query_body_returns query q w :
  exists fl q1 w1 evs,
    Query_body env query q w = Some (fl, q1, w1) /\
    events w1 = events w ++ evs /\ (queried evs <= 1)%nat /\
    (connects w <= connects w1)%nat /\
    match fl with
    | Continue =>
      hiveConn q1 = None /\
      exists err dial, retriable err = true /\ Forall dialling dial /\
        ((hiveConn q = None /\ evs = dial) \/
         (exists c, evs = dial ++ [Queried c query (Some err); Closed c] /\
            ((forall c0, hiveConn q = Some c0 -> (c0 < connects w)%nat) ->
             (c < connects w1)%nat)))
    | Return None =>
      exists c dial, hiveConn q1 = Some c /\ Forall dialling dial /\
        evs = dial ++ [Queried c query None]
    | Return (Some err) =>
      retriable err = false /\
      ((hiveConn q = None /\ hiveConn q1 = None /\ Forall dialling evs) \/
       (exists c dial, hiveConn q1 = Some c /\ Forall dialling dial /\
          evs = dial ++ [Queried c query (Some err)]))
    end.
Proof.
  unfold Query_body.
  destruct (getHiveConnection_returns q w)
    as (r & q1 & w1 & dial & -> & ev & dials & cs & got).
  destruct r as [c|err].
  - destruct got as [stored origin]. unfold conn_Query.
    assert (known : (forall c0, hiveConn q = Some c0 -> (c0 < connects w)%nat) ->
                    (c < connects w1)%nat).
    { intros k. destruct origin as [(s & _ & ->)|(_ & _ & range & _)];
        [apply k, s|lia]. }
    destruct (conn_Query_result env (queries w1) c query) as [err|].
    + destruct (retriable err) eqn:retry.
      * rewrite closeHiveConnection_spec, stored.
        eexists Continue, _, _, (dial ++ [Queried c query (Some err); Closed c]).
        split; [reflexivity|]. simpl. rewrite ev, <- !app_assoc. simpl.
        rewrite queried_app, (queried_dialling _ dials).
        split; [reflexivity|]. split; [unfold queried; simpl; lia|]. split; [lia|].
        split; [reflexivity|].
        exists err, dial. split; [exact retry|]. split; [exact dials|].
        right. exists c. split; [reflexivity|exact known].
      * eexists (Return (Some err)), _, _, (dial ++ [Queried c query (Some err)]).
        split; [reflexivity|]. simpl. rewrite ev, <- !app_assoc.
        rewrite queried_app, (queried_dialling _ dials).
        split; [reflexivity|]. split; [unfold queried; simpl; lia|]. split; [lia|].
        split; [exact retry|].
        right. exists c, dial. auto.
    + eexists (Return None), _, _, (dial ++ [Queried c query None]).
      split; [reflexivity|]. simpl. rewrite ev, <- !app_assoc.
      rewrite queried_app, (queried_dialling _ dials).
      split; [reflexivity|]. split; [unfold queried; simpl; lia|]. split; [lia|].
      exists c, dial. auto.
  - destruct got as [none ->]. destruct (retriable err) eqn:retry.
    + rewrite closeHiveConnection_spec. simpl.
      eexists Continue, _, _, dial. split; [reflexivity|].
      rewrite (queried_dialling _ dials).
      split; [exact ev|]. split; [lia|]. split; [lia|]. split; [reflexivity|].
      exists err, dial. split; [exact retry|]. split; [exact dials|].
      left. auto.
    + eexists (Return (Some err)), _, _, dial. split; [reflexivity|].
      rewrite (queried_dialling _ dials).
      split; [exact ev|]. split; [lia|]. split; [lia|]. split; [exact retry|].
      left. auto.
Qed.

End QueryLoop.

Section QueryRetries.
Context (env : Env) (query : string).

Lemma attempts_end_closed n q w qn wn :
  attempts env query n q w qn wn -> (0 < n)%nat -> hiveConn qn = None.
Proof.
  induction 1 as [|n q w q1 w1 qn wn body rest IH]; [lia|]. intros _.
  destruct n as [|n]; [|apply IH; lia].
  inversion rest; subst.
  destruct (Query_body_returns env query q w) as (fl & q' & w' & evs & eq & _ & _ & _ & what).
  rewrite eq in body. injection body as -> -> ->. apply what.
Qed.

(** The loop with [left] iterations to go returns, having called
    [Connection.Query] at most [left] times: either after [left] iterations
    that all ended with [continue], with the final close and the error
    [hiveGaveUp], or out of an earlier iteration. *)
Lemma Query_from_returns left q w :
  exists res q' w' evs n qn wn,
    Query_from env left query q w = Some (res, q', w') /\
    events w' = events w ++ evs /\ (queried evs <= left)%nat /\
    (n <= left)%nat /\ attempts env query n q w qn wn /\
    ((n = left /\ res = Some hiveGaveUp /\
      (q', w') = closeHiveConnection qn wn) \/
     ((n < left)%nat /\
      Query_body env query qn wn = Some (Return res, q', w'))).
Proof.
  revert q w. induction left as [|left IH]; intros q w.
  - simpl. rewrite closeHiveConnection_spec.
    eexists _, _, _,
      (match hiveConn q with Some c => [Closed c] | None => [] end), 0%nat, q, w.
    split; [reflexivity|].
    split; [destruct (hiveConn q); simpl; [reflexivity|rewrite app_nil_r; reflexivity]|].
    split; [destruct (hiveConn q); unfold queried; simpl; lia|].
    split; [lia|]. split; [constructor|].
    left. split; [reflexivity|]. split; [reflexivity|].
    rewrite closeHiveConnection_spec. reflexivity.
  - simpl.
    destruct (Query_body_returns env query q w)
      as (fl & q1 & w1 & evs1 & body & ev1 & n1 & _ & _).
    rewrite body. destruct fl as [res|].
    + exists res, q1, w1, evs1, 0%nat, q, w.
      split; [reflexivity|]. split; [exact ev1|]. split; [lia|].
      split; [lia|]. split; [constructor|].
      right. split; [lia|exact body].
    + destruct (IH q1 w1)
        as (res & q' & w' & evs & n & qn & wn & run & ev & count & le & att & how).
      exists res, q', w', (evs1 ++ evs), (S n), qn, wn.
      split; [exact run|].
      split; [rewrite ev, ev1, app_assoc; reflexivity|].
      split; [rewrite queried_app; lia|].
      split; [lia|].
      split; [econstructor; [exact body|exact att]|].
      destruct how as [(-> & -> & close)|(lt & last)].
      * left. auto.
      * right. split; [lia|exact last].
Qed.

End QueryRetries.

(** C1.  [Query] returns, and by then has called [Connection.Query] at most
    3 times.  Some number [n <= 3] of its attempts ended with [continue];
    when all 3 did, it closes the connection (which the third attempt has
    closed already, so nothing is left to close) and returns a non-nil
    error, and otherwise the next attempt returned.  An attempt ends with
    [continue] only on an error that is [io.EOF] or a broken pipe: it then
    leaves no connection stored and, when the error came from the query on
    connection [c], has just closed [c].  Conversely an attempt whose error,
    from the query or from getting the connection, is [io.EOF] or a broken
    pipe closes the connection stored and ends with [continue].  With no
    connection stored the next attempt dials a new one: the connection it
    gets is one [hive.Connect] returned after the close.  And the attempt
    after one that ended with [continue] does dial: its [getHiveConnection]
    returns, having called [hive.Connect] at least once and done nothing
    else; when that gave a connection, it is one no earlier call of
    [hive.Connect] returned, it is the one stored, and the attempt sends the
    query to it; when it gave none, none is stored. *)
Theorem Query_retries_three_times (env : Env) (query : string) :
  (forall q w, exists res q' w' evs n qn wn,
      Query env query q w = Some (res, q', w') /\
      events w' = events w ++ evs /\ (queried evs <= 3)%nat /\
      (n <= 3)%nat /\ attempts env query n q w qn wn /\
      ((n = 3%nat /\ res = Some hiveGaveUp /\ res <> None /\
        hiveConn q' = None /\ (q', w') = closeHiveConnection qn wn /\
        (q', w') = (qn, wn)) \/
       ((n < 3)%nat /\
        Query_body env query qn wn = Some (Return res, q', w')))) /\
  (forall q w q1 w1,
      Query_body env query q w = Some (Continue, q1, w1) ->
      hiveConn q1 = None /\
      exists err dial, retriable err = true /\ Forall dialling dial /\
        ((hiveConn q = None /\ events w1 = events w ++ dial) \/
         (exists c,
             events w1 = events w ++ dial ++ [Queried c query (Some err); Closed c] /\
             ((forall c0, hiveConn q = Some c0 -> (c0 < connects w)%nat) ->
              (c < connects w1)%nat)))) /\
  (forall q w c q1 w1 err w2,
      getHiveConnection env q w = Some (Ok c, q1, w1) ->
      conn_Query env c query w1 = (Some err, w2) ->
      retriable err = true ->
      Query_body env query q w
      = Some (Continue, set_hiveConn None q1, emit (Closed c) w2)) /\
  (forall q w err q1 w1,
      getHiveConnection env q w = Some (Err err, q1, w1) ->
      retriable err = true ->
      Query_body env query q w = Some (Continue, q1, w1) /\
      hiveConn q1 = None) /\
  (forall q1 w1 c q2 w2,
      hiveConn q1 = None ->
      getHiveConnection env q1 w1 = Some (Ok c, q2, w2) ->
      (connects w1 <= c)%nat /\
      exists evs, events w2 = events w1 ++ evs /\
                  In (Connected c (hiveHost q1)) evs) /\
  (forall q w q1 w1,
      Query_body env query q w = Some (Continue, q1, w1) ->
      exists r q2 w2 dial,
        getHiveConnection env q1 w1 = Some (r, q2, w2) /\
        events w2 = events w1 ++ dial /\ Forall dialling dial /\
        (connects w1 < connects w2)%nat /\
        match r with
        | Ok c' =>
          hiveConn q2 = Some c' /\ (connects w1 <= c' < connects w2)%nat /\
          In (Connected c' (hiveHost q1)) dial /\
          exists fl q3 w3 res tail,
            Query_body env query q1 w1 = Some (fl, q3, w3) /\
            events w3 = events w2 ++ Queried c' query res :: tail
        | Err _ => hiveConn q2 = None
        end).
Proof.
  split; [|split; [|split; [|split; [|split]]]].
  - intros q w.
    destruct (Query_from_returns env query maxRetries q w)
      as (res & q' & w' & evs & n & qn & wn & run & ev & count & le & att & how).
    exists res, q', w', evs, n, qn, wn.
    split; [exact run|]. split; [exact ev|]. split; [exact count|].
    split; [exact le|]. split; [exact att|].
    destruct how as [(-> & -> & close)|how]; [left|right; exact how].
    split; [reflexivity|]. split; [reflexivity|]. split; [discriminate|].
    assert (closed : hiveConn qn = None)
      by (eapply attempts_end_closed; [exact att|unfold maxRetries; lia]).
    assert (same : closeHiveConnection qn wn = (qn, wn)).
    { rewrite closeHiveConnection_spec, closed. rewrite <- closed at 1.
      rewrite set_hiveConn_same. reflexivity. }
    rewrite same in close. injection close as -> ->.
    split; [exact closed|]. split; [symmetry; exact same|reflexivity].
  - intros q w q1 w1 body.
    destruct (Query_body_returns env query q w)
      as (fl & q' & w' & evs & eq & ev & _ & _ & what).
    rewrite eq in body. injection body as -> -> ->.
    destruct what as (closed & err & dial & retry & dials & how).
    split; [exact closed|]. exists err, dial.
    split; [exact retry|]. split; [exact dials|].
    destruct how as [(none & ->)|(c & -> & fresh)]; [left; auto|right].
    exists c. auto.
  - intros q w c q1 w1 err w2 got asked retry.
    unfold Query_body. rewrite got, asked, retry, closeHiveConnection_spec.
    destruct (getHiveConnection_returns env q w)
      as (r & q' & w' & evs & eq & _ & _ & _ & what).
    rewrite eq in got. injection got as -> -> ->.
    destruct what as (stored & _). rewrite stored. reflexivity.
  - intros q w err q1 w1 got retry.
    unfold Query_body. rewrite got, retry, closeHiveConnection_spec.
    destruct (getHiveConnection_returns env q w)
      as (r & q' & w' & evs & eq & _ & _ & _ & what).
    rewrite eq in got. injection got as -> -> ->.
    destruct what as (_ & ->). simpl. split; reflexivity.
  - intros q1 w1 c q2 w2 none got.
    destruct (getHiveConnection_returns env q1 w1)
      as (r & q' & w' & evs & eq & ev & _ & _ & what).
    rewrite eq in got. injection got as -> -> ->.
    destruct what as (_ & [(stored & _)|(_ & _ & range & dialled)]).
    + rewrite none in stored. discriminate.
    + split; [lia|]. exists evs. auto.
  - intros q w q1 w1 body.
    assert (none : hiveConn q1 = None).
    { destruct (Query_body_returns env query q w)
        as (fl & q' & w' & evs & eq & _ & _ & _ & what).
      rewrite eq in body. injection body as -> -> ->. apply what. }
    destruct (getHiveConnection_redials env q1 w1 none)
      as (r & q2 & w2 & dial & got & ev & dials & strict & what).
    exists r, q2, w2, dial. split; [exact got|]. split; [exact ev|].
    split; [exact dials|]. split; [exact strict|].
    destruct r as [c'|err]; [|exact what].
    destruct what as (stored & range & dialled).
    split; [exact stored|]. split; [exact range|]. split; [exact dialled|].
    unfold Query_body. rewrite got. unfold conn_Query.
    destruct (conn_Query_result env (queries w2) c' query) as [err|].
    + destruct (retriable err).
      * rewrite closeHiveConnection_spec, stored.
        eexists _, _, _, (Some err), [Closed c']. split; [reflexivity|].
        simpl. rewrite <- app_assoc. reflexivity.
      * eexists _, _, _, (Some err), []. split; reflexivity.
    + eexists _, _, _, None, []. split; reflexivity.
Qed.

(** When every query fails with [io.EOF], [Query] dials three connections,
    queries and closes each, and gives up. *)
Example Query_gives_up :
  exists q' w',
    Query (failingQueries EOF) "SHOW TABLES"
      (newHiveQueryer "hive:10000" false None) dawn
    = Some (Some hiveGaveUp, q', w') /\
    hiveConn q' = None /\
    events w' =
      [Connected 0 "hive:10000"; LogQueriesSet 0 false;
       Queried 0 "SHOW TABLES" (Some EOF); Closed 0;
       Connected 1 "hive:10000"; LogQueriesSet 1 false;
       Queried 1 "SHOW TABLES" (Some EOF); Closed 1;
       Connected 2 "hive:10000"; LogQueriesSet 2 false;
       Queried 2 "SHOW TABLES" (Some EOF); Closed 2].
Proof. eexists _, _. vm_compute. repeat split; reflexivity. Qed.

(** When the first query meets a broken pipe, [Query] reconnects once and
    the query succeeds on the new connection. *)
Example Query_recovers_from_broken_pipe :
  exists q' w',
    Query oneBrokenPipe "SHOW TABLES" connectedQueryer eightDialled
    = Some (None, q', w') /\
    hiveConn q' = Some 8%nat /\
    events w' =
      [Queried 7 "SHOW TABLES" (Some brokenPipe); Closed 7;
       Connected 8 "hive:10000"; LogQueriesSet 8 false;
       Queried 8 "SHOW TABLES" None].
Proof. eexists _, _. vm_compute. repeat split; reflexivity. Qed.

Lemma Query_from_after_attempts env query n q0 w0 q w left :
  attempts env query n q0 w0 q w ->
  Query_from env (n + left) query q0 w0 = Query_from env left query q w.
Proof.
  induction 1 as [|n q0 w0 q1 w1 q w body rest IH]; [reflexivity|].
  simpl. rewrite body. exact IH.
Qed.

(** C8.  In any attempt of [Query]: when the query on the connection [c]
    that [getHiveConnection] returned fails with an error that is neither
    [io.EOF] nor a broken pipe, [Query] returns that very error, [c] is still
    the stored connection, and the attempt has logged the query on [c] after
    at most some dialling, so no connection was closed in it.  When [c] was
    stored before the attempt, the client is as it was and the query is all
    that happened. *)
Theorem Query_other_error_keeps_connection (env : Env) (query : string)
    (n : nat) (q0 q q1 : hiveQueryer) (w0 w w1 w2 : World) (c : nat)
    (err : error) :
  attempts env query n q0 w0 q w -> (n < 3)%nat ->
  getHiveConnection env q w = Some (Ok c, q1, w1) ->
  conn_Query env c query w1 = (Some err, w2) ->
  is_EOF (Some err) = false ->
  isErrBrokenPipe (Some err) = false ->
  Query env query q0 w0 = Some (Some err, q1, w2) /\
  hiveConn q1 = Some c /\
  (exists dial,
      Forall dialling dial /\
      events w2 = events w ++ dial ++ [Queried c query (Some err)]) /\
  (hiveConn q = Some c ->
   q1 = q /\ events w2 = events w ++ [Queried c query (Some err)]).
Proof.
  intros before lt got asked noEOF noPipe.
  assert (retry : retriable err = false)
    by (unfold retriable; rewrite noEOF, noPipe; reflexivity).
  assert (ev2 : events w2 = events w1 ++ [Queried c query (Some err)]).
  { pose proof asked as a. unfold conn_Query in a. injection a as res eqw.
    rewrite <- eqw. simpl. rewrite res. reflexivity. }
  split.
  - unfold Query, maxRetries.
    replace 3%nat with (n + S (2 - n))%nat by lia.
    rewrite (Query_from_after_attempts _ _ _ _ _ _ _ _ before).
    simpl. unfold Query_body. rewrite got, asked, retry. reflexivity.
  - destruct (getHiveConnection_returns env q w)
      as (r & q' & w' & dial & eq & ev & dials & _ & what).
    rewrite eq in got. injection got as -> -> ->.
    destruct what as (stored & origin).
    split; [exact stored|]. split.
    + exists dial. split; [exact dials|].
      rewrite ev2, ev, <- app_assoc. reflexivity.
    + intros was. destruct origin as [(_ & -> & ->)|(none & _)].
      * split; [reflexivity|exact ev2].
      * rewrite none in was. discriminate.
Qed.

(** A query for a missing table on a stored connection: the error comes
    back, and connection 7 stays stored and open. *)
Lemma Query_other_error_witness :
  Query (failingQueries tableNotFound) "SELECT * FROM datasource_x"
    connectedQueryer eightDialled
  = Some (Some tableNotFound, connectedQueryer,
          emit (Queried 7 "SELECT * FROM datasource_x" (Some tableNotFound))
            {| now := 0; connects := 8; opens := 0; queries := 1;
               selects := 0; events := [] |}) /\
  hiveConn connectedQueryer = Some 7%nat /\
  (exists dial,
      Forall dialling dial /\
      events
        (emit (Queried 7 "SELECT * FROM datasource_x" (Some tableNotFound))
           {| now := 0; connects := 8; opens := 0; queries := 1;
              selects := 0; events := [] |})
      = events eightDialled ++ dial
        ++ [Queried 7 "SELECT * FROM datasource_x" (Some tableNotFound)]) /\
  (hiveConn connectedQueryer = Some 7%nat ->
   connectedQueryer = connectedQueryer /\
   events
     (emit (Queried 7 "SELECT * FROM datasource_x" (Some tableNotFound))
        {| now := 0; connects := 8; opens := 0; queries := 1;
           selects := 0; events := [] |})
   = events eightDialled
     ++ [Queried 7 "SELECT * FROM datasource_x" (Some tableNotFound)]).
Proof.
  apply (Query_other_error_keeps_connection
           (failingQueries tableNotFound) "SELECT * FROM datasource_x"
           0 connectedQueryer connectedQueryer connectedQueryer
           eightDialled eightDialled eightDialled _ 7 tableNotFound).
  - constructor.
  - lia.
  - reflexivity.
  - reflexivity.
  - reflexivity.
  - reflexivity.
Defined.

(** ** Starting the workers *)

Lemma alter_last (f : Z -> Z) (l : list Z) (x : Z) :
  alter f (length l) (l ++ [x]) = l ++ [f x].
Proof. induction l as [|y l IH]; simpl; [reflexivity|]. f_equal. exact IH. Qed.

(** One [wg.Add(1); go ...] of [startWorkers], whose [wg] is the last
    variable allocated. *)
Lemma spawn_one (h : list Z) (fs ws : list Fiber) (n : Z) (wk : Work) m :
  heap m = h ++ [n] -> fibers m = fs ++ ws ->
  heap (go wk (length h) (wg_Add (length h) 1 m)) = h ++ [1 + n] /\
  fibers (go wk (length h) (wg_Add (length h) 1 m))
  = fs ++ (ws ++ [{| work := wk; fiber_wg := length h |}]).
Proof.
  intros hm fm. simpl. rewrite hm, fm, alter_last, app_assoc. split; reflexivity.
Qed.

(** [startWorkers] leaves every wait group that existed as it was: it
    counts the fibers it starts in a new variable, its parameter, which
    every fiber it starts refers to. *)
Lemma startWorkers_mem (c : Chargeback) (v : Z) (m : Mem) :
  exists ws,
    heap (startWorkers c v m) = heap m ++ [Z.of_nat (length ws) + v] /\
    fibers (startWorkers c v m) = fibers m ++ ws /\
    Forall (fun f => fiber_wg f = length (heap m)) ws /\
    map work ws =
      [runPrestoTableWorker;
       runWorker ReportDataSource 0; runWorker ReportGenerationQuery 0;
       runWorker Report 0; runWorker ScheduledReport 0;
       runWorker ReportDataSource 1; runWorker ReportGenerationQuery 1;
       runWorker Report 1; runWorker ScheduledReport 1;
       runScheduledReportRunner]
      ++ (if DisablePromsum (cfg c) then [] else [runPromsumWorker]).
Proof.
  unfold startWorkers, alloc, threadiness, startWorkers_loop.
  set (a := length (heap m)).
  assert (start : heap {| heap := heap m ++ [v]; fibers := fibers m |}
                  = heap m ++ [v] /\
                  fibers {| heap := heap m ++ [v]; fibers := fibers m |}
                  = fibers m ++ []) by (rewrite app_nil_r; split; reflexivity).
  repeat match goal with
         | S : heap ?m0 = _ /\ fibers ?m0 = _
           |- context [go ?wk a (wg_Add a 1 ?m0)] =>
           let S' := fresh "spawned" in
           pose proof (spawn_one _ _ _ _ wk _ (proj1 S) (proj2 S)) as S';
           fold a in S';
           generalize dependent (go wk a (wg_Add a 1 m0)); intros
         end.
  destruct (DisablePromsum (cfg c)); simpl;
    match goal with
    | |- context [heap ?mm = _] =>
      match goal with
      | S : heap mm = _ /\ fibers mm = _ |- _ =>
        destruct S as [hm fm]; rewrite hm, fm
      end
    end;
    (eexists; split; [|split; [reflexivity|split]];
     [simpl; f_equal; f_equal; lia|repeat constructor|reflexivity]).
Qed.

(** C5, as the code has it.  Whatever the configuration, [startWorkers]
    starts 2 workers for each of the four queues of ReportDataSource,
    ReportGenerationQuery, Report and ScheduledReport, none for the queues
    of ReportPrometheusQuery, StorageLocation and PrestoTable, and 1
    PrestoTable worker: 9 worker fibers.  Beside them it starts the
    scheduled runner and, unless Promsum is disabled, the Promsum
    collector. *)
Theorem startWorkers_starts_nine_workers (c : Chargeback) (v : Z) (m : Mem) :
  exists ws,
    fibers (startWorkers c v m) = fibers m ++ ws /\
    queue_workers ReportDataSource (map work ws) = 2%nat /\
    queue_workers ReportGenerationQuery (map work ws) = 2%nat /\
    queue_workers Report (map work ws) = 2%nat /\
    queue_workers ScheduledReport (map work ws) = 2%nat /\
    queue_workers ReportPrometheusQuery (map work ws) = 0%nat /\
    queue_workers StorageLocation (map work ws) = 0%nat /\
    queue_workers PrestoTable (map work ws) = 0%nat /\
    prestoTable_workers (map work ws) = 1%nat /\
    worker_fibers (map work ws) = 9%nat /\
    length ws = (if DisablePromsum (cfg c) then 10%nat else 11%nat) /\
    (In runPromsumWorker (map work ws) <-> DisablePromsum (cfg c) = false) /\
    In runScheduledReportRunner (map work ws).
Proof.
  destruct (startWorkers_mem c v m) as (ws & _ & fs & _ & works).
  exists ws. split; [exact fs|].
  rewrite <- (length_map work ws), works.
  destruct (DisablePromsum (cfg c)); vm_compute;
    repeat split; try reflexivity; try tauto; try discriminate.
  all: intros H; repeat (destruct H as [H|H]; try discriminate H); tauto.
Qed.

(** The operator of [exampleConfig] starts 9 worker fibers, not 15, and no
    worker for three of the seven queues. *)
Lemma startWorkers_not_fifteen_workers :
  ~ ((forall k, queue_workers k (started exampleOperator) = 2%nat) /\
     prestoTable_workers (started exampleOperator) = 1%nat /\
     worker_fibers (started exampleOperator) = 15%nat).
Proof. intros (_ & _ & fifteen). vm_compute in fifteen. discriminate fifteen. Qed.

Example started_exampleOperator :
  started exampleOperator =
  [runPrestoTableWorker;
   runWorker ReportDataSource 0; runWorker ReportGenerationQuery 0;
   runWorker Report 0; runWorker ScheduledReport 0;
   runWorker ReportDataSource 1; runWorker ReportGenerationQuery 1;
   runWorker Report 1; runWorker ScheduledReport 1;
   runScheduledReportRunner; runPromsumWorker].
Proof. reflexivity. Qed.

(** ** Informer events *)

Section Informers.
Context {Q R : Type} `{RateLimitingInterface Q}.
Context (handleScheduledReportDeleted : Object -> Operator Q R -> Operator Q R).

Lemma enqueue_resource (k k' : Kind) (m : ObjectMeta) (s : Operator Q R) :
  queues (enqueue k (Resource k' m) s) k
  = Add (meta_namespace m +:+ "/" +:+ meta_name m) (queues s k) /\
  (forall other, other <> k -> queues (enqueue k (Resource k' m) s) other = queues s other) /\
  rest (enqueue k (Resource k' m) s) = rest s.
Proof.
  simpl. split; [|split; [|reflexivity]].
  - destruct (decide (k = k)); [reflexivity|congruence].
  - intros other ne. destruct (decide (other = k)); [congruence|reflexivity].
Qed.

(** C6, as the code has it.  On the informers of Report, ScheduledReport,
    ReportDataSource and ReportGenerationQuery, an add or an update of a
    resource adds the key namespace/name to the queue of that kind and
    changes nothing else.  A delete on the informers of Report,
    ReportDataSource and ReportGenerationQuery changes nothing; a delete on
    the informer of ScheduledReport is handed to
    [handleScheduledReportDeleted].  The informers of ReportPrometheusQuery,
    StorageLocation and PrestoTable have no handler: no event on them
    changes anything. *)
Theorem informers_enqueue_on_add_and_update :
  let inf := setupInformers handleScheduledReportDeleted in
  (forall k n m s,
      k = Report \/ k = ScheduledReport \/ k = ReportDataSource
      \/ k = ReportGenerationQuery ->
      (exists old, n = OnAdd (Resource k m) \/ n = OnUpdate old (Resource k m)) ->
      queues (deliver inf k n s) k
      = Add (meta_namespace m +:+ "/" +:+ meta_name m) (queues s k) /\
      (forall other, other <> k -> queues (deliver inf k n s) other = queues s other) /\
      rest (deliver inf k n s) = rest s) /\
  (forall k obj s,
      k = Report \/ k = ReportDataSource \/ k = ReportGenerationQuery ->
      deliver inf k (OnDelete obj) s = s) /\
  (forall obj s,
      deliver inf ScheduledReport (OnDelete obj) s
      = handleScheduledReportDeleted obj s) /\
  (forall k n s,
      k = ReportPrometheusQuery \/ k = StorageLocation \/ k = PrestoTable ->
      deliver inf k n s = s).
Proof.
  simpl. split; [|split; [|split]].
  - intros k n m s kind (old & event).
    assert (same : deliver (setupInformers handleScheduledReportDeleted) k n s
                   = enqueue k (Resource k m) s)
      by (destruct kind as [ -> | [ -> | [ -> | -> ]]], event as [ -> | -> ];
          reflexivity).
    rewrite same. apply enqueue_resource.
  - intros k obj s [ -> | [ -> | -> ]]; reflexivity.
  - reflexivity.
  - intros k n s [ -> | [ -> | -> ]]; destruct n; reflexivity.
Qed.

End Informers.

(** Not every event of every informer enqueues: on the work queues of the
    spec, the add of a StorageLocation leaves its queue empty, and so does
    the delete of a Report. *)
Lemma not_every_event_enqueues :
  ~ (forall (del : Object -> Operator WorkQueue unit -> Operator WorkQueue unit)
            (k : Kind) (n : Notification) (m : ObjectMeta),
        subject n = Resource k m ->
        queues (deliver (setupInformers del) k n idleOperator) k
        = Add (meta_namespace m +:+ "/" +:+ meta_name m)
            (queues idleOperator k)).
Proof.
  intros claim.
  specialize (claim (fun _ s => s) StorageLocation
                (OnAdd (Resource StorageLocation monthlyReport)) monthlyReport
                eq_refl).
  vm_compute in claim. discriminate claim.
Qed.

Example delete_of_a_report :
  waiting
    (queues (deliver (setupInformers (fun _ s => s)) Report
               (OnDelete (Resource Report monthlyReport)) idleOperator) Report)
  = [] /\
  waiting
    (queues (deliver (setupInformers (fun _ s => s)) Report
               (OnAdd (Resource Report monthlyReport)) idleOperator) Report)
  = ["metering/monthly"].
Proof. split; reflexivity. Qed.

(** ** The initialized flag *)

(** A step leaves the flag as it is, unless it is the call of
    [setInitialized]. *)
Lemma step_initialized env stop s s' :
  step env stop s s' ->
  initialized (chargeback s') = initialized (chargeback s) \/
  (run_at s = AtSetInitialized /\ chargeback s' = setInitialized (chargeback s)).
Proof.
  destruct 1; simpl; auto.
  match goal with |- context [presto_fiber ?r] => destruct r end; auto.
Qed.

(** C9.  The operator [New] returns is not initialized; [setInitialized]
    sets the flag; a step of the system changes the flag only if it is the
    call of [setInitialized] in [Run]; no step clears it; so along every
    execution, once [isInitialized] has answered true it answers true ever
    after. *)
Theorem initialized_is_monotone :
  (forall config inCluster c,
      New config inCluster = Ok c -> isInitialized c = false) /\
  (forall c, isInitialized (setInitialized c) = true) /\
  (forall env stop s s',
      step env stop s s' ->
      isInitialized (chargeback s') <> isInitialized (chargeback s) ->
      run_at s = AtSetInitialized /\
      chargeback s' = setInitialized (chargeback s)) /\
  (forall env stop s s',
      step env stop s s' ->
      isInitialized (chargeback s) = true ->
      isInitialized (chargeback s') = true) /\
  (forall env stop s s',
      steps env stop s s' ->
      isInitialized (chargeback s) = true ->
      isInitialized (chargeback s') = true).
Proof.
  assert (one : forall env stop s s',
             step env stop s s' ->
             isInitialized (chargeback s) = true ->
             isInitialized (chargeback s') = true).
  { intros env stop s s' st was. unfold isInitialized in *.
    destruct (step_initialized _ _ _ _ st) as [same|[_ ->]];
      [congruence|reflexivity]. }
  split; [|split; [|split; [|split]]].
  - intros config [err|] c; [discriminate|]. intros [= <-]. reflexivity.
  - reflexivity.
  - intros env stop s s' st changed. unfold isInitialized in *.
    destruct (step_initialized _ _ _ _ st) as [same|set]; [congruence|exact set].
  - exact one.
  - intros env stop s s' run. induction run as [|s1 s2 s3 _ IH last]; [auto|].
    intros was. eapply one; [exact last|apply IH, was].
Qed.

(** ** Waiting for the workers *)

Lemma boot_two_wait_groups c : two_wait_groups (boot c).
Proof. left. repeat split. left. reflexivity. Qed.

Lemma step_two_wait_groups env stop s s' :
  step env stop s s' -> two_wait_groups s -> two_wait_groups s'.
Proof.
  intros st inv.
  destruct st as [s at_|s w db wp c wh q at_|s w rp wp rh wh q err at_
                 |s at_|s err q0 w0 q1 w1 at_|s at_|s q0 w0 q1 w1 at_
                 |s at_|s at_|s at_|s at_ closed
                 |s at_|s q0 w0 q1 w1 at_ ready|s ch t is_ch closes open
                 |s i f closed l fresh_|s i f q0 q1 l fresh_ has call];
    try (destruct inv as [(h & fe & [b|[e b]])|(b & a & n & refs)];
         rewrite at_ in b; try discriminate b;
         first [left; simpl; repeat split; try assumption;
                first [left; reflexivity|right; eexists; reflexivity]
               |right; simpl; repeat split; assumption]; fail).
  - (* startWorkers *)
    destruct inv as [(h & f & _)|(b & _)];
      [|rewrite at_ in b; discriminate b].
    right. unfold run_startWorkers, alloc. rewrite h. simpl.
    destruct (startWorkers_mem (chargeback s) 0
                {| heap := [] ++ [0]; fibers := fibers (mem s) |})
      as (ws & hs & fs & refs & _).
    simpl in hs, fs, refs.
    split; [reflexivity|]. split; [reflexivity|]. split.
    + eexists. exact hs.
    + rewrite fs, f. exact refs.
  - (* the stop channel is closed *)
    destruct inv as [(h & fe & b)|(b & a & n & refs)];
      [left|right]; simpl; repeat split; assumption.
  - (* a fiber returns *)
    destruct inv as [(h & fe & _)|(b & a & (n & h) & refs)].
    + rewrite fe in l. discriminate l.
    + right. split; [exact b|]. split; [exact a|]. split; [|exact refs].
      assert (r : fiber_wg f = 1%nat)
        by (eapply (proj1 (Forall_lookup _ _) refs); exact l).
      simpl. rewrite r, h. simpl. eexists. reflexivity.
  - (* a worker calls the Hive client *)
    destruct inv as [(h & fe & b)|(b & a & n & refs)];
      [left|right]; simpl; repeat split; assumption.
Qed.

Lemma steps_two_wait_groups env stop c s :
  steps env stop (boot c) s -> two_wait_groups s.
Proof.
  remember (boot c) as s0 eqn:start.
  induction 1 as [|s1 s2 s3 _ IH last];
    [subst; apply boot_two_wait_groups|].
  eapply step_two_wait_groups; [exact last|apply IH, start].
Qed.

(** C2.  [startWorkers] takes its wait group by value, so what [Run] waits
    on is never added to: in every execution of [Run], when it reaches
    [wg.Wait()] the counter of its [wg] is zero and the call returns at
    once.  For the example operator there is an execution in which the stop
    channel is closed and [Run] has returned nil while none of the eleven
    fibers it started has returned. *)
Theorem Run_does_not_wait_for_workers :
  (forall env stop c s,
      steps env stop (boot c) s ->
      run_at s = AtWait ->
      wg_Wait_ready (run_wg s) (mem s) = true) /\
  (exists s,
      steps cleanStart (Some 0%nat) (boot exampleOperator) s /\
      run_at s = Returned None /\
      isInitialized (chargeback s) = true /\
      stopped s = true /\
      exited s = [] /\
      running s = started exampleOperator /\
      length (running s) = 11%nat).
Proof.
  split.
  - intros env stop c s run waiting.
    destruct (steps_two_wait_groups _ _ _ _ run)
      as [(_ & _ & [b|[e b]])|(_ & a & (n & h) & _)].
    + rewrite waiting in b. discriminate b.
    + rewrite waiting in b. discriminate b.
    + unfold wg_Wait_ready. rewrite a, h. reflexivity.
  - eexists. split.
    + eapply steps_step; [eapply steps_step; [eapply steps_step;
        [eapply steps_step; [eapply steps_step; [eapply steps_step;
        [eapply steps_step; [eapply steps_step; [eapply steps_step;
        [eapply steps_step; [eapply steps_step; [apply steps_refl|]|]|]|]|]|]|]|]|]|]|].
      * apply step_start. reflexivity.
      * eapply (step_connected _ _ _ dawn); [reflexivity|vm_compute; reflexivity
                                             |vm_compute; reflexivity].
      * apply step_prometheus. reflexivity.
      * apply step_synced. reflexivity.
      * apply step_probed. reflexivity.
      * apply step_startWorkers. reflexivity.
      * apply step_setInitialized. reflexivity.
      * apply (step_stop _ _ _ 0%nat (60 * Minute)); reflexivity.
      * apply step_got_stop; reflexivity.
      * apply step_shutdown. reflexivity.
      * eapply (step_waited _ _ _ _ dawn); reflexivity.
    + vm_compute. repeat split; reflexivity.
Qed.

(** * Further properties *)

(** ** The retry budget of a key *)

Section RetryBudget.
Context {Q : Type} `{RateLimitingInterface Q}.

(** What the operator relies on of a rate-limiting queue: asking for the
    number of requeues changes nothing, [AddRateLimited] counts one more
    requeue of the key, and [Forget] resets the count. *)
Hypothesis NumRequeues_reads : forall key (q : Q), snd (NumRequeues key q) = q.
Hypothesis AddRateLimited_counts : forall key (q : Q),
    fst (NumRequeues key (AddRateLimited key q)) = fst (NumRequeues key q) + 1.
Hypothesis Forget_resets : forall key (q : Q),
    fst (NumRequeues key (Forget key q)) = 0.

Lemma fail_times_requeues (err : error) (objType key : string) (queue : Q) (n : nat) :
  fst (NumRequeues key queue) = 0 -> (n <= 5)%nat ->
  fail_times n err objType key queue = Nat.iter n (AddRateLimited key) queue /\
  fst (NumRequeues key (fail_times n err objType key queue)) = Z.of_nat n.
Proof.
  intros zero. induction n as [|n IH]; intros le; [split; [reflexivity|exact zero]|].
  destruct IH as [same count]; [lia|].
  unfold fail_times in *. simpl. rewrite same in *.
  set (q := Nat.iter n (AddRateLimited key) queue) in *.
  pose proof (NumRequeues_reads key q) as reads.
  destruct (NumRequeues key q) as [m q1] eqn:num. simpl in *. subst q1.
  destruct (Z.ltb_spec m 5) as [_|ge]; [|lia].
  split; [reflexivity|].
  rewrite AddRateLimited_counts, num. simpl. lia.
Qed.

(** X1.  A key whose reconciler keeps failing, on a queue that has not
    requeued it yet: the first five failures each requeue it with
    [AddRateLimited], the sixth forgets it, and after that its count is 0
    again, so a later failure starts a new round of five. *)
Theorem handleErr_retry_budget (err : error) (objType key : string) (queue : Q) :
  fst (NumRequeues key queue) = 0 ->
  (forall n, (n <= 5)%nat ->
     fail_times n err objType key queue = Nat.iter n (AddRateLimited key) queue /\
     fst (NumRequeues key (fail_times n err objType key queue)) = Z.of_nat n) /\
  fail_times 6 err objType key queue
  = Forget key (Nat.iter 5 (AddRateLimited key) queue) /\
  fst (NumRequeues key (fail_times 6 err objType key queue)) = 0.
Proof.
  intros zero. split; [intros n le; apply fail_times_requeues; assumption|].
  destruct (fail_times_requeues err objType key queue 5 zero) as [same count];
    [lia|].
  assert (sixth : fail_times 6 err objType key queue
                  = Forget key (Nat.iter 5 (AddRateLimited key) queue)).
  { change (fail_times 6 err objType key queue)
      with (handleErr (Some err) objType key (fail_times 5 err objType key queue)).
    rewrite same in *.
    set (q := Nat.iter 5 (AddRateLimited key) queue) in *.
    pose proof (NumRequeues_reads key q) as reads.
    unfold handleErr.
    destruct (NumRequeues key q) as [m q1] eqn:num. simpl in *. subst q1.
    destruct (Z.ltb_spec m 5) as [lt|_]; [lia|reflexivity]. }
  split; [exact sixth|]. rewrite sixth. apply Forget_resets.
Qed.

End RetryBudget.

Lemma wq_NumRequeues_reads key (q : WorkQueue) : snd (NumRequeues key q) = q.
Proof. reflexivity. Qed.

Lemma wq_AddRateLimited_counts key (q : WorkQueue) :
  fst (NumRequeues key (AddRateLimited key q)) = fst (NumRequeues key q) + 1.
Proof. simpl. unfold wq_NumRequeues at 1. simpl. rewrite lookup_insert_eq. reflexivity. Qed.

Lemma wq_Forget_resets key (q : WorkQueue) :
  fst (NumRequeues key (Forget key q)) = 0.
Proof. simpl. unfold wq_NumRequeues. simpl. rewrite lookup_delete_eq. reflexivity. Qed.

(** The work queue of the spec keeps these laws; on it the sixth failure
    of a new key leaves the key forgotten. *)
Lemma handleErr_retry_budget_witness :
  (forall n, (n <= 5)%nat ->
     fail_times n EOF "Report" "metering/monthly" emptyQueue
     = Nat.iter n (AddRateLimited "metering/monthly") emptyQueue /\
     fst (NumRequeues "metering/monthly"
            (fail_times n EOF "Report" "metering/monthly" emptyQueue))
     = Z.of_nat n) /\
  fail_times 6 EOF "Report" "metering/monthly" emptyQueue
  = Forget "metering/monthly"
      (Nat.iter 5 (AddRateLimited "metering/monthly") emptyQueue) /\
  fst (NumRequeues "metering/monthly"
         (fail_times 6 EOF "Report" "metering/monthly" emptyQueue)) = 0.
Proof.
  apply (handleErr_retry_budget wq_NumRequeues_reads wq_AddRateLimited_counts
           wq_Forget_resets EOF "Report" "metering/monthly" emptyQueue).
  reflexivity.
Defined.

(** ** The log and the pace of the connection loops *)

(** The stop case is taken only on a channel that is closed by then. *)
Lemma select_by_stop env ch w w2 :
  select_tick_or_stop env ch w = (ByStop, w2) ->
  exists s t, ch = Some s /\ closed_at env s = Some t /\ t <= now w2.
Proof.
  unfold select_tick_or_stop.
  destruct ch as [s|]; [destruct (closed_at env s) as [t|] eqn:closed|];
    try discriminate.
  destruct (Z.ltb_spec t (now w + connBackoff)).
  - intros [= <-]. exists s, t. simpl. repeat split; [exact closed|lia].
  - destruct (Z.leb_spec t (now w + connBackoff + Z.of_N (tick_lag env (selects w))));
      simpl; [destruct (select_prefers_stop env (selects w))|]; try discriminate.
    intros [= <-]. exists s, t. simpl. repeat split; [exact closed|lia].
Qed.

Section LoopLogs.
Context (env : Env).

(** What a run of the Hive loop amounts to: failed calls of [hive.Connect],
    one backoff apart, then either a connection, on which the query logging
    of the client is set, or an error: the shutdown error, if the client
    has a stop channel, or the error of the last call, once the ceiling is
    passed. *)
Lemma newHiveConn_loop_shape q start fuel w r w' :
  newHiveConn_loop env fuel q start w = Some (r, w') ->
  exists errs n,
    events w' = events w ++ map (ConnectFailed (hiveHost q)) errs
                ++ match r with
                   | Ok c => [Connected c (hiveHost q);
                              LogQueriesSet c (logQueries q)]
                   | Err _ => []
                   end /\
    connects w' = (connects w + n)%nat /\ (1 <= n <= fuel)%nat /\
    n = (length errs + match r with Ok _ => 1 | Err _ => 0 end)%nat /\
    queries w' = queries w /\ opens w' = opens w /\
    (Z.of_nat n - 1) * connBackoff <= now w' - now w /\
    match r with
    | Ok c => c = (connects w + length errs)%nat
    | Err e =>
      (e = shutdownHive /\ stopCh q <> None) \/
      (last errs = Some e /\ now w' - start > maxConnWaitTime)
    end.
Proof.
  revert w r w'. induction fuel as [|fuel IH]; intros w r w'; [discriminate|].
  simpl. unfold hive_Connect.
  destruct (att_result (hive_Connect_result env (connects w))) as [err|].
  - match goal with |- context [emit ?ev ?w0] => set (w1 := emit ev w0) end.
    assert (at1 : now w <= now w1 /\ connects w1 = S (connects w)
                  /\ events w1 = events w ++ [ConnectFailed (hiveHost q) err]
                  /\ queries w1 = queries w /\ opens w1 = opens w)
      by (subst w1; simpl; repeat split; lia).
    destruct at1 as (t1 & c1 & e1 & q1 & o1). clearbody w1.
    rewrite Sub_exceeds.
    destruct (Z.gtb_spec (now w1 - start) maxConnWaitTime) as [over|within].
    + intros [= <- <-]. exists [err], 1%nat. rewrite e1, c1, q1, o1. simpl.
      pose proof connBackoff_pos.
      repeat split; try lia. right. split; [reflexivity|lia].
    + destruct (select_tick_or_stop env (stopCh q) w1) as [[] w2] eqn:sel.
      * intros run. apply IH in run
          as (errs & n & ev & cs & range & count & qs & os & pace & how).
        pose proof (select_by_tick _ _ _ _ sel) as tick.
        apply select_frame in sel as (sev & sq & sc & so & _).
        exists (err :: errs), (S n).
        rewrite ev, cs, qs, os, sev, sc, sq, so, e1, c1, q1, o1.
        rewrite <- app_assoc. simpl.
        split; [reflexivity|]. split; [lia|]. split; [lia|]. split; [lia|].
        split; [reflexivity|]. split; [reflexivity|].
        split; [pose proof connBackoff_pos; nia|].
        destruct r as [c|e]; [lia|].
        destruct how as [stop|[final late]]; [left; exact stop|right].
        split; [|exact late].
        destruct errs as [|e0 errs]; [discriminate final|exact final].
      * intros [= <- <-].
        destruct (select_by_stop _ _ _ _ sel) as (s & t & is_ch & _).
        apply select_frame in sel as (sev & sq & sc & so & t2).
        exists [err], 1%nat. rewrite sev, sc, sq, so, e1, c1, q1, o1. simpl.
        pose proof connBackoff_pos.
        repeat split; try lia. left. split; [reflexivity|].
        rewrite is_ch. discriminate.
  - intros [= <- <-]. exists [], 1%nat. simpl.
    rewrite <- app_assoc. simpl. repeat split; lia.
Qed.

(** The same of the Presto loop. *)
Lemma newPrestoConn_loop_shape connStr start stop fuel w r w' :
  newPrestoConn_loop env fuel connStr start stop w = Some (r, w') ->
  exists errs n,
    events w' = events w ++ map (OpenFailed connStr) errs
                ++ match r with
                   | Ok db => [Opened db connStr]
                   | Err _ => []
                   end /\
    opens w' = (opens w + n)%nat /\ (1 <= n <= fuel)%nat /\
    n = (length errs + match r with Ok _ => 1 | Err _ => 0 end)%nat /\
    queries w' = queries w /\ connects w' = connects w /\
    (Z.of_nat n - 1) * connBackoff <= now w' - now w /\
    match r with
    | Ok db => db = (opens w + length errs)%nat
    | Err e =>
      (e = shutdownPresto /\
       exists s t, stop = Some s /\ closed_at env s = Some t /\ t <= now w') \/
      (exists e0, last errs = Some e0 /\ e = prestoFailed env e0 /\
                  now w' - start > maxConnWaitTime)
    end.
Proof.
  revert w r w'. induction fuel as [|fuel IH]; intros w r w'; [discriminate|].
  simpl. unfold sql_Open.
  destruct (att_result (sql_Open_result env (opens w))) as [err|].
  - match goal with |- context [emit ?ev ?w0] => set (w1 := emit ev w0) end.
    assert (at1 : now w <= now w1 /\ opens w1 = S (opens w)
                  /\ events w1 = events w ++ [OpenFailed connStr err]
                  /\ queries w1 = queries w /\ connects w1 = connects w)
      by (subst w1; simpl; repeat split; lia).
    destruct at1 as (t1 & c1 & e1 & q1 & o1). clearbody w1.
    rewrite Sub_exceeds.
    destruct (Z.gtb_spec (now w1 - start) maxConnWaitTime) as [over|within].
    + intros [= <- <-]. exists [err], 1%nat. rewrite e1, c1, q1, o1. simpl.
      pose proof connBackoff_pos.
      repeat split; try lia. right. exists err. repeat split; lia.
    + destruct (select_tick_or_stop env stop w1) as [[] w2] eqn:sel.
      * intros run. apply IH in run
          as (errs & n & ev & cs & range & count & qs & os & pace & how).
        pose proof (select_by_tick _ _ _ _ sel) as tick.
        apply select_frame in sel as (sev & sq & sc & so & _).
        exists (err :: errs), (S n).
        rewrite ev, cs, qs, os, sev, sc, sq, so, e1, c1, q1, o1.
        rewrite <- app_assoc. simpl.
        split; [reflexivity|]. split; [lia|]. split; [lia|]. split; [lia|].
        split; [reflexivity|]. split; [reflexivity|].
        split; [pose proof connBackoff_pos; nia|].
        destruct r as [c|e]; [lia|].
        destruct how as [stopped_|(e0 & final & made & late)];
          [left; exact stopped_|right].
        exists e0. split; [|split; [exact made|exact late]].
        destruct errs as [|e1' errs]; [discriminate final|exact final].
      * intros [= <- <-].
        destruct (select_by_stop _ _ _ _ sel) as (s & t & is_ch & closed & by_then).
        apply select_frame in sel as (sev & sq & sc & so & t2).
        exists [err], 1%nat. rewrite sev, sc, sq, so, e1, c1, q1, o1. simpl.
        pose proof connBackoff_pos.
        repeat split; try lia. left. split; [reflexivity|].
        exists s, t. auto.
  - intros [= <- <-]. exists [], 1%nat. simpl.
    repeat split; lia.
Qed.

End LoopLogs.

(** X2.  [newHiveConn] returns after calling [hive.Connect] between 1 and
    14 times, with at least [connBackoff] between one call and the next,
    and it makes no query.  The log shows the failed calls and then, if it
    returns a connection, that connection, dialled last to the host of the
    client, with the query logging of the client set on it.  An error it
    returns is the shutdown error, which takes a client with a stop channel,
    or the error of the last call. *)
Theorem newHiveConn_paced_attempts (env : Env) (q : hiveQueryer) (w : World) :
  exists r w' errs n,
    newHiveConn env q w = Some (r, w') /\
    (forall fuel, (connIterations <= fuel)%nat ->
       newHiveConn_loop env fuel q (now w) w = Some (r, w')) /\
    events w' = events w ++ map (ConnectFailed (hiveHost q)) errs
                ++ match r with
                   | Ok c => [Connected c (hiveHost q);
                              LogQueriesSet c (logQueries q)]
                   | Err _ => []
                   end /\
    connects w' = (connects w + n)%nat /\ (1 <= n <= 14)%nat /\
    (Z.of_nat n - 1) * connBackoff <= now w' - now w /\
    queries w' = queries w /\
    match r with
    | Ok c => c = (connects w + length errs)%nat /\ n = S (length errs)
    | Err e =>
      n = length errs /\
      ((e = shutdownHive /\ stopCh q <> None) \/ last errs = Some e)
    end.
Proof.
  destruct (newHiveConn_loop_fuel env q w) as ([r w'] & run & more).
  destruct (newHiveConn_loop_shape env _ _ _ _ _ _ run)
    as (errs & n & ev & cs & range & count & qs & _ & pace & how).
  exists r, w', errs, n. unfold connIterations in range.
  split; [exact run|]. split; [exact more|]. split; [exact ev|].
  split; [exact cs|]. split; [exact range|]. split; [exact pace|].
  split; [exact qs|].
  destruct r as [c|e]; [split; [exact how|lia]|].
  split; [lia|]. destruct how as [stopped_|[final _]]; auto.
Qed.

(** X3.  [newPrestoConn] returns after calling [sql.Open] between 1 and 14
    times, with at least [connBackoff] between one call and the next.  It
    opens the database of the configured Presto host; a handle it returns
    is that of the last call; an error it returns is the shutdown error,
    and then the stop channel it was given is closed by that time, or is
    made of the error of the last call. *)
Theorem newPrestoConn_paced_attempts (env : Env) (cfg : Config)
    (stop : option nat) (w : World) :
  exists r w' errs n,
    newPrestoConn env cfg stop w = Some (r, w') /\
    events w' = events w
                ++ map (OpenFailed ("presto://" +:+ PrestoHost cfg +:+ "/hive/default")) errs
                ++ match r with
                   | Ok db => [Opened db ("presto://" +:+ PrestoHost cfg +:+ "/hive/default")]
                   | Err _ => []
                   end /\
    opens w' = (opens w + n)%nat /\ (1 <= n <= 14)%nat /\
    (Z.of_nat n - 1) * connBackoff <= now w' - now w /\
    match r with
    | Ok db => db = (opens w + length errs)%nat /\ n = S (length errs)
    | Err e =>
      n = length errs /\
      ((e = shutdownPresto /\
        exists s t, stop = Some s /\ closed_at env s = Some t /\ t <= now w') \/
       (exists e0, last errs = Some e0 /\ e = prestoFailed env e0 /\
                   now w' - now w > maxConnWaitTime))
    end.
Proof.
  destruct (newPrestoConn_loop_fuel env cfg stop w) as ([r w'] & run & _).
  destruct (newPrestoConn_loop_shape env _ _ _ _ _ _ _ run)
    as (errs & n & ev & cs & range & count & _ & _ & pace & how).
  exists r, w', errs, n. unfold connIterations in range.
  split; [exact run|]. split; [exact ev|].
  split; [exact cs|]. split; [exact range|]. split; [exact pace|].
  destruct r as [c|e]; [split; [exact how|lia]|].
  split; [lia|exact how].
Qed.

(** X4.  A client made by [newHiveQueryer] does not give up early: when its
    [newHiveConn] returns an error, more than [maxConnWaitTime] has passed
    since the call, and the error is the one the last [hive.Connect]
    returned. *)
Theorem newHiveConn_gives_up_after_ceiling (env : Env) (host : string)
    (logQ : bool) (stop : option nat) (w w' : World) (e : error) :
  newHiveConn env (newHiveQueryer host logQ stop) w = Some (Err e, w') ->
  now w' - now w > maxConnWaitTime /\
  exists errs,
    events w' = events w ++ map (ConnectFailed host) errs /\
    last errs = Some e.
Proof.
  intros run.
  destruct (newHiveConn_loop_shape env _ _ _ _ _ _ run)
    as (errs & n & ev & _ & _ & _ & _ & _ & _ & how).
  simpl in ev, how. rewrite app_nil_r in ev.
  destruct how as [[_ stopped_]|[final late]]; [destruct stopped_; reflexivity|].
  split; [exact late|]. exists errs. auto.
Qed.

Lemma newHiveConn_gives_up_witness :
  now nobodyHomeAfter - now dawn > maxConnWaitTime /\
  exists errs,
    events nobodyHomeAfter
    = events dawn ++ map (ConnectFailed "hive:10000") errs /\
    last errs = Some refused.
Proof.
  apply (newHiveConn_gives_up_after_ceiling nobodyHome "hive:10000" false
           (Some 0%nat) dawn nobodyHomeAfter refused).
  vm_compute. reflexivity.
Defined.

(** X5.  The Presto loop watches the stop channel: when [sql.Open] fails
    within the ceiling and the channel is closed before the backoff is
    over, the loop returns its shutdown error at that instant (at once, if
    the channel was closed already) and calls [sql.Open] no more. *)
Theorem newPrestoConn_stops_in_backoff (env : Env) (connStr : string)
    (start : Z) (ch : nat) (t : Z) (fuel : nat) (w w1 : World) (err : error) :
  sql_Open env connStr w = (Err err, w1) ->
  Sub (now w1) start <= maxConnWaitTime ->
  closed_at env ch = Some t ->
  t < now w1 + connBackoff ->
  exists w2,
    newPrestoConn_loop env (S fuel) connStr start (Some ch) w
    = Some (Err shutdownPresto, w2) /\
    now w2 = Z.max (now w1) t /\
    opens w2 = opens w1 /\ events w2 = events w1.
Proof.
  intros attempt within closed early. simpl. rewrite attempt.
  destruct (Z.gtb_spec (Sub (now w1) start) maxConnWaitTime); [lia|].
  unfold select_tick_or_stop. rewrite closed.
  destruct (Z.ltb_spec t (now w1 + connBackoff)); [|lia].
  eexists. split; [reflexivity|]. simpl. repeat split. lia.
Qed.

Lemma newPrestoConn_stops_witness :
  exists w2,
    newPrestoConn_loop nobodyHome 14 "presto://presto:8080/hive/default" 0
      (Some 0%nat) dawn
    = Some (Err shutdownPresto, w2) /\
    now w2 = Second /\
    opens w2 = 1%nat /\
    events w2 = [OpenFailed "presto://presto:8080/hive/default" refused].
Proof.
  apply (newPrestoConn_stops_in_backoff nobodyHome
           "presto://presto:8080/hive/default" 0 0%nat Second 13 dawn
           {| now := 0; connects := 0; opens := 1; queries := 0; selects := 0;
              events := [OpenFailed "presto://presto:8080/hive/default" refused] |}
           refused).
  - reflexivity.
  - vm_compute. discriminate.
  - reflexivity.
  - reflexivity.
Defined.

(** ** The stored connection *)

(** X6.  [getHiveConnection] keeps a connection it got and forgets a
    failure: after a success, the next call returns the same connection
    without dialling or changing anything; after a failure nothing is
    stored, at least one call of [hive.Connect] was made, and the next call
    dials again. *)
Theorem getHiveConnection_caches_success_only (env : Env) (q : hiveQueryer)
    (w : World) :
  exists r q1 w1,
    getHiveConnection env q w = Some (r, q1, w1) /\
    match r with
    | Ok c =>
      hiveConn q1 = Some c /\
      getHiveConnection env q1 w1 = Some (Ok c, q1, w1)
    | Err _ =>
      hiveConn q1 = None /\ (connects w < connects w1)%nat /\
      exists r2 q2 w2,
        getHiveConnection env q1 w1 = Some (r2, q2, w2) /\
        (connects w1 < connects w2)%nat
    end.
Proof.
  destruct (getHiveConnection_returns env q w)
    as (r & q1 & w1 & evs & run & _ & _ & _ & what).
  exists r, q1, w1. split; [exact run|]. destruct r as [c|e].
  - destruct what as [stored _]. split; [exact stored|].
    unfold getHiveConnection. rewrite stored. reflexivity.
  - destruct what as [none ->].
    assert (dials : forall q0 w0 r0 q' w',
               hiveConn q0 = None ->
               getHiveConnection env q0 w0 = Some (r0, q', w') ->
               (connects w0 < connects w')%nat).
    { intros q0 w0 r0 q' w' no. unfold getHiveConnection. rewrite no.
      destruct (newHiveConn env q0 w0) as [[r' w'']|] eqn:loop; [|discriminate].
      destruct (newHiveConn_loop_shape env _ _ _ _ _ _ loop)
        as (errs & n & _ & cs & range & _).
      destruct r'; intros [= _ _ <-]; lia. }
    split; [reflexivity|]. split; [exact (dials _ _ _ _ _ none run)|].
    destruct (getHiveConnection_returns env (set_hiveConn None q) w1)
      as (r2 & q2 & w2 & evs2 & run2 & _).
    exists r2, q2, w2. split; [exact run2|].
    exact (dials (set_hiveConn None q) _ _ _ _ eq_refl run2).
Qed.

(** X7.  [closeHiveConnection] closes the stored connection, if there is
    one, and leaves none stored; a second call does nothing, so no
    connection is closed twice; and a connection got after it is a new
    one, not the one just closed. *)
Theorem closeHiveConnection_once (q : hiveQueryer) (w : World) :
  hiveConn (fst (closeHiveConnection q w)) = None /\
  events (snd (closeHiveConnection q w))
  = events w ++ match hiveConn q with Some c => [Closed c] | None => [] end /\
  closeHiveConnection (fst (closeHiveConnection q w)) (snd (closeHiveConnection q w))
  = closeHiveConnection q w /\
  (forall env c c' q2 w2,
      hiveConn q = Some c -> (c < connects w)%nat ->
      getHiveConnection env (fst (closeHiveConnection q w))
        (snd (closeHiveConnection q w)) = Some (Ok c', q2, w2) ->
      c' <> c /\ In (Connected c' (hiveHost q)) (events w2)).
Proof.
  rewrite closeHiveConnection_spec. simpl.
  split; [reflexivity|].
  split; [destruct (hiveConn q); simpl; [reflexivity|symmetry; apply app_nil_r]|].
  split; [rewrite closeHiveConnection_spec; reflexivity|].
  intros env c c' q2 w2 stored known got. rewrite stored in got.
  destruct (getHiveConnection_returns env (set_hiveConn None q) (emit (Closed c) w))
    as (r & q' & w' & evs & run & ev & _ & _ & what).
  rewrite run in got. injection got as -> -> ->.
  destruct what as (_ & [(no & _)|(_ & _ & range & dialled)]); [discriminate no|].
  simpl in range, dialled. split; [lia|].
  rewrite ev. apply in_or_app. right. exact dialled.
Qed.

(** ** Queries and closed connections *)






Section SoundUse.
Context (env : Env) (query : string).





End SoundUse.



(** ** What [Query] returns *)

Lemma succeeded_app (a b : list Event) :
  succeeded (a ++ b) = (succeeded a + succeeded b)%nat.
Proof. unfold succeeded. rewrite List.filter_app, List.length_app. reflexivity. Qed.

Lemma succeeded_dialling (evs : list Event) :
  Forall dialling evs -> succeeded evs = 0%nat.
Proof.
  induction 1 as [|ev evs d _ IH]; [reflexivity|].
  destruct ev; try destruct d; exact IH.
Qed.

Lemma attempts_no_success env query n q w qn wn :
  attempts env query n q w qn wn ->
  exists evs, events wn = events w ++ evs /\ succeeded evs = 0%nat.
Proof.
  induction 1 as [q w|n q w q1 w1 qn wn body rest (evs & ev & none)].
  - exists []. rewrite app_nil_r. split; reflexivity.
  - destruct (Query_body_returns env query q w)
      as (fl & q' & w' & evs1 & eq & ev1 & _ & _ & what).
    rewrite eq in body. injection body as -> -> ->.
    destruct what as (_ & err & dial & _ & dials & how).
    exists (evs1 ++ evs). rewrite ev, ev1, app_assoc.
    split; [reflexivity|]. rewrite succeeded_app, none.
    destruct how as [(_ & ->)|(c & -> & _)].
    + rewrite (succeeded_dialling _ dials). reflexivity.
    + rewrite succeeded_app, (succeeded_dialling _ dials). reflexivity.
Qed.

(** X9.  [Query] returns nil exactly when the query ran successfully, and
    then it ran successfully once: the successful call is the last thing
    [Query] did, on the connection that stays stored, and every call before
    it failed.  When [Query] returns an error, no call succeeded. *)
Theorem Query_succeeds_once (env : Env) (query : string) (q : hiveQueryer)
    (w : World) :
  exists res q' w' evs,
    Query env query q w = Some (res, q', w') /\
    events w' = events w ++ evs /\
    match res with
    | None =>
      succeeded evs = 1%nat /\
      exists c pre, evs = pre ++ [Queried c query None] /\
                    succeeded pre = 0%nat /\ hiveConn q' = Some c
    | Some _ => succeeded evs = 0%nat
    end.
Proof.
  destruct (Query_from_returns env query maxRetries q w)
    as (res & q' & w' & evs & n & qn & wn & run & ev & _ & _ & att & how).
  exists res, q', w', evs. split; [exact run|]. split; [exact ev|].
  destruct (attempts_no_success _ _ _ _ _ _ _ att) as (evs_a & ev_a & none).
  destruct how as [(_ & -> & close)|(_ & last_)].
  - rewrite closeHiveConnection_spec in close. injection close as -> ->.
    assert (evs = evs_a ++ match hiveConn qn with
                           | Some c => [Closed c]
                           | None => []
                           end) as ->.
    { apply (app_inv_head (events w)). rewrite <- ev, app_assoc, <- ev_a.
      destruct (hiveConn qn); simpl; [reflexivity|rewrite app_nil_r; reflexivity]. }
    rewrite succeeded_app, none. destruct (hiveConn qn); reflexivity.
  - destruct (Query_body_returns env query qn wn)
      as (fl & q1 & w1 & evs1 & eq & ev1 & _ & _ & what).
    rewrite eq in last_. injection last_ as -> -> ->.
    assert (evs = evs_a ++ evs1) as ->
      by (apply (app_inv_head (events w)); rewrite <- ev, ev1, ev_a, app_assoc;
          reflexivity).
    rewrite succeeded_app, none. destruct res as [err|].
    + destruct what as (_ & [(_ & _ & dials)|(c & dial & _ & dials & ->)]).
      * rewrite (succeeded_dialling _ dials). reflexivity.
      * rewrite succeeded_app, (succeeded_dialling _ dials). reflexivity.
    + destruct what as (c & dial & stored & dials & ->).
      rewrite succeeded_app, (succeeded_dialling _ dials).
      split; [reflexivity|].
      exists c, (evs_a ++ dial). rewrite app_assoc.
      split; [reflexivity|]. split; [|exact stored].
      rewrite succeeded_app, none, (succeeded_dialling _ dials). reflexivity.
Qed.

(** ** The wait group of [startWorkers] *)

Lemma wg_Done_all (h : list Z) (ws : list Fiber) :
  Forall (fun f => fiber_wg f = length h) ws ->
  forall m n, heap m = h ++ [n] ->
    heap (fold_left (fun m f => wg_Done (fiber_wg f) m) ws m)
    = h ++ [n - Z.of_nat (length ws)].
Proof.
  induction 1 as [|f ws ref _ IH]; intros m n hm; simpl.
  - rewrite hm. do 2 f_equal. lia.
  - rewrite (IH _ (-1 + n)).
    + do 2 f_equal. lia.
    + simpl. rewrite ref, hm. apply alter_last.
Qed.

(** X10.  Inside [startWorkers] the wait group is kept in balance: the
    function leaves every wait group that existed untouched and counts, in
    its own copy, one for each fiber it starts; every fiber it starts calls
    [Done] on that copy, and when all of them have, the copy is back at the
    value it was passed. *)
Theorem startWorkers_balanced (c : Chargeback) (v : Z) (m : Mem) :
  exists ws,
    fibers (startWorkers c v m) = fibers m ++ ws /\
    (forall a, (a < length (heap m))%nat ->
               heap (startWorkers c v m) !! a = heap m !! a) /\
    heap (startWorkers c v m) !! length (heap m)
    = Some (v + Z.of_nat (length ws)) /\
    Forall (fun f => fiber_wg f = length (heap m)) ws /\
    heap (fold_left (fun m f => wg_Done (fiber_wg f) m) ws (startWorkers c v m))
      !! length (heap m) = Some v.
Proof.
  destruct (startWorkers_mem c v m) as (ws & hs & fs & refs & _).
  exists ws. split; [exact fs|]. split; [|split; [|split; [exact refs|]]].
  - intros a lt. rewrite hs. apply lookup_app_l. exact lt.
  - rewrite hs, list_lookup_middle by reflexivity. f_equal. lia.
  - rewrite (wg_Done_all _ _ refs _ _ hs), list_lookup_middle by reflexivity.
    f_equal. lia.
Qed.

Lemma step_fibers_counted env stop s s' :
  step env stop s s' -> two_wait_groups s -> fibers_counted s -> fibers_counted s'.
Proof.
  intros st shape counted.
  destruct st as [s at_|s w db wp c wh q at_|s w rp wp rh wh q err at_
                 |s at_|s err q0 w0 q1 w1 at_|s at_|s q0 w0 q1 w1 at_
                 |s at_|s at_|s at_|s at_ closed
                 |s at_|s q0 w0 q1 w1 at_ ready|s ch t is_ch closes open
                 |s i f closed l fresh_|s i f q0 q1 l fresh_ has call];
    try exact counted.
  - (* startWorkers *)
    destruct shape as [(h & fe & _)|(b & _)];
      [|rewrite at_ in b; discriminate b].
    destruct counted as (nodup & range & _).
    assert (none : exited s = []).
    { destruct (exited s) as [|i ex]; [reflexivity|].
      specialize (range i ltac:(left)). rewrite fe in range. simpl in range. lia. }
    unfold run_startWorkers, alloc. rewrite h. simpl.
    destruct (startWorkers_mem (chargeback s) 0
                {| heap := [] ++ [0]; fibers := fibers (mem s) |})
      as (ws & hs & fs & _).
    simpl in hs, fs. unfold fibers_counted. simpl.
    rewrite none, hs, fs, fe. simpl.
    split; [constructor|]. split; [intros i []%elem_of_nil|].
    intros n [= <-]. lia.
  - (* a fiber returns *)
    destruct shape as [(h & fe & _)|(b & a & (n & h) & refs)];
      [rewrite fe in l; discriminate l|].
    destruct counted as (nodup & range & count).
    assert (r : fiber_wg f = 1%nat)
      by (eapply (proj1 (Forall_lookup _ _) refs); exact l).
    unfold fibers_counted. simpl. rewrite r, h. simpl.
    split; [|split].
    + apply NoDup_app. split; [exact nodup|]. split; [|apply NoDup_singleton].
      intros j in_ ->%list_elem_of_singleton. exact (fresh_ in_).
    + intros j [in_| ->%list_elem_of_singleton]%elem_of_app;
        [apply range, in_|].
      apply lookup_lt_Some in l. exact l.
    + intros k [= <-]. rewrite length_app. simpl.
      specialize (count n). rewrite h in count. specialize (count eq_refl). lia.
Qed.

Lemma steps_fibers_counted env stop c s :
  steps env stop (boot c) s -> fibers_counted s.
Proof.
  intros run.
  assert (both : two_wait_groups s /\ fibers_counted s).
  { remember (boot c) as s0 eqn:start.
    induction run as [|s1 s2 s3 _ IH last].
    - subst. split; [apply boot_two_wait_groups|].
      split; [constructor|]. split; [intros i []%elem_of_nil|]. intros n [=].
    - destruct (IH start) as [shape counted].
      split; [eapply step_two_wait_groups; eassumption|].
      eapply step_fibers_counted; eassumption. }
  apply both.
Qed.

(** X11.  Once the workers are started, the wait group [startWorkers]
    counts in tells how many of them are running: at every moment its
    counter is the number of fibers started minus the number of fibers that
    have returned, no fiber returns twice, and the counter is zero exactly
    when every fiber has returned. *)
Theorem callee_wait_group_counts_running (env : Env) (stop : option nat)
    (c : Chargeback) (s : System) :
  steps env stop (boot c) s ->
  fibers (mem s) <> [] ->
  NoDup (exited s) /\
  heap (mem s) !! 1%nat
  = Some (Z.of_nat (length (fibers (mem s))) - Z.of_nat (length (exited s))) /\
  (heap (mem s) !! 1%nat = Some 0 <->
   forall i, (i < length (fibers (mem s)))%nat -> i ∈ exited s).
Proof.
  intros run some.
  destruct (steps_fibers_counted _ _ _ _ run) as (nodup & range & count).
  destruct (steps_two_wait_groups _ _ _ _ run)
    as [(_ & none & _)|(_ & _ & (n & h) & _)];
    [destruct (some none)|].
  specialize (count n). rewrite h in count. specialize (count eq_refl).
  assert (sub : exited s ⊆+ seq 0 (length (fibers (mem s)))).
  { apply NoDup_submseteq; [exact nodup|].
    intros i in_. apply elem_of_seq. specialize (range i in_). lia. }
  pose proof (submseteq_length _ _ sub) as le. rewrite length_seq in le.
  split; [exact nodup|]. split; [rewrite h; simpl; f_equal; exact count|].
  rewrite h. simpl. split.
  - intros [= zero] i lt.
    assert (all : exited s ≡ₚ seq 0 (length (fibers (mem s))))
      by (apply submseteq_length_Permutation; [exact sub|rewrite length_seq; lia]).
    rewrite all. apply elem_of_seq. lia.
  - intros all. f_equal.
    assert (sup : seq 0 (length (fibers (mem s))) ⊆+ exited s).
    { apply NoDup_submseteq; [apply NoDup_seq|].
      intros i in_%elem_of_seq. apply all. lia. }
    apply submseteq_length in sup. rewrite length_seq in sup. lia.
Qed.

Lemma sampleRunning_reachable :
  steps cleanStart (Some 0%nat) (boot exampleOperator) sampleRunning.
Proof.
  unfold sampleRunning. cbv zeta.
  eapply steps_step; [eapply steps_step; [eapply steps_step;
    [eapply steps_step; [eapply steps_step; [eapply steps_step;
    [eapply steps_step; [eapply steps_step; [eapply steps_step;
    [apply steps_refl|]|]|]|]|]|]|]|]|].
  - apply step_start. reflexivity.
  - eapply (step_connected _ _ _ dawn); [reflexivity|vm_compute; reflexivity
                                         |vm_compute; reflexivity].
  - apply step_prometheus. reflexivity.
  - apply step_synced. reflexivity.
  - apply step_probed. reflexivity.
  - apply step_startWorkers. reflexivity.
  - apply step_setInitialized. reflexivity.
  - apply (step_stop _ _ _ 0%nat (60 * Minute)); reflexivity.
  - apply step_fiber_exit; [reflexivity|reflexivity|].
    intros []%elem_of_nil.
Qed.

(** In the sample run eleven fibers were started and one has returned: the
    counter stands at ten. *)
Lemma callee_wait_group_witness :
  NoDup (exited sampleRunning) /\
  heap (mem sampleRunning) !! 1%nat
  = Some (Z.of_nat (length (fibers (mem sampleRunning)))
          - Z.of_nat (length (exited sampleRunning))) /\
  (heap (mem sampleRunning) !! 1%nat = Some 0 <->
   forall i, (i < length (fibers (mem sampleRunning)))%nat ->
             i ∈ exited sampleRunning).
Proof.
  apply (callee_wait_group_counts_running cleanStart (Some 0%nat)
           exampleOperator sampleRunning).
  - exact sampleRunning_reachable.
  - discriminate.
Defined.

(** ** What being initialized means *)

(** A call of a worker on the Hive client changes nothing of it but the
    stored connection. *)
Lemma worker_call_settings env q q1 : worker_call env q q1 -> same_settings q q1.
Proof.
  destruct 1 as [q w r q1 w1 got|q w q1 w1 close].
  - destruct (getHiveConnection_returns env q w)
      as (r' & q' & w' & evs & eq & _ & _ & _ & what).
    rewrite eq in got. injection got as -> -> ->.
    destruct r as [c|err].
    + destruct what as (_ & [(_ & -> & _)|(_ & -> & _)]); repeat split.
    + destruct what as (_ & ->). repeat split.
  - rewrite closeHiveConnection_spec in close. injection close as <- _.
    repeat split.
Qed.

(** What a whole call of [Query] does to the client is a sequence of such
    calls. *)
Lemma Query_from_worker_calls env query left q w r q' w' :
  Query_from env left query q w = Some (r, q', w') ->
  rtc (worker_call env) q q'.
Proof.
  revert q w. induction left as [|left IH]; intros q w; simpl.
  - destruct (closeHiveConnection q w) as [q1 w1] eqn:close.
    intros [= _ <- _]. apply rtc_once. exact (worker_closes _ _ _ _ _ close).
  - unfold Query_body.
    destruct (getHiveConnection env q w) as [[[res q1] w1]|] eqn:got;
      [|discriminate].
    pose proof (worker_gets _ _ _ _ _ _ got) as g.
    destruct res as [c|err].
    + destruct (conn_Query env c query w1) as [[err|] w2].
      * destruct (retriable err).
        -- destruct (closeHiveConnection q1 w2) as [q3 w3] eqn:close.
           intros run. eapply rtc_l; [exact g|].
           eapply rtc_l; [exact (worker_closes _ _ _ _ _ close)|].
           exact (IH _ _ run).
        -- intros [= _ <- _]. apply rtc_once, g.
      * intros [= _ <- _]. apply rtc_once, g.
    + destruct (retriable err).
      * destruct (closeHiveConnection q1 w1) as [q3 w3] eqn:close.
        intros run. eapply rtc_l; [exact g|].
        eapply rtc_l; [exact (worker_closes _ _ _ _ _ close)|].
        exact (IH _ _ run).
      * intros [= _ <- _]. apply rtc_once, g.
Qed.

Lemma connected_set_up c : connected c -> set_up c.
Proof.
  intros (db & conn & q & cn & has & client & _).
  split; [exact db|]. split; [exact conn|]. exists q. auto.
Qed.

Lemma set_up_other_client c q q1 :
  set_up c -> c_hiveQueryer c = Some q -> same_settings q q1 ->
  set_up (set_hiveQueryer q1 c).
Proof.
  intros (db & conn & q' & has & host & logs & ch) is_q (h & l & st).
  rewrite is_q in has. injection has as <-.
  split; [exact db|]. split; [exact conn|]. exists q1.
  split; [reflexivity|]. unfold client_of. simpl. repeat split; congruence.
Qed.

Lemma closeHiveConnection_settings q w q1 w1 :
  closeHiveConnection q w = (q1, w1) -> same_settings q q1 /\ hiveConn q1 = None.
Proof.
  rewrite closeHiveConnection_spec. intros [= <- _]. repeat split.
Qed.

Lemma step_run_stage env stop s s' :
  step env stop s s' -> run_stage s -> run_stage s'.
Proof.
  intros st inv.
  destruct st as [s at_|s w db wp c wh q at_ presto hive
                 |s w rp wp rh wh q err at_ presto hive failed
                 |s at_|s err q0 w0 q1 w1 at_ has close|s at_
                 |s q0 w0 q1 w1 at_ has close
                 |s at_|s at_|s at_|s at_ closed
                 |s at_|s q0 w0 q1 w1 at_ ready has close
                 |s ch t is_ch closes_ open
                 |s i f closed l fresh_|s i f q0 q1 l fresh_ has call];
    unfold run_stage in *; try rewrite at_ in inv; simpl in *.
  - exact inv.
  - destruct inv as [init none]. split; [exact init|]. split; [exact none|].
    split; [discriminate|]. split; [reflexivity|].
    destruct (getHiveConnection_returns env
                (newHiveQueryer (HiveHost (cfg (chargeback s)))
                   (LogDDLQueries (cfg (chargeback s))) stop) w)
      as (r & q' & w' & evs & eq & _ & _ & _ & what).
    rewrite eq in hive. injection hive as -> -> ->.
    exists q, c. split; [reflexivity|].
    destruct what as (stored & [(_ & -> & _)|(_ & -> & _)]);
      (split; [repeat split|exact stored]).
  - destruct inv as [init none]. split; [|exact none].
    destruct rp; exact init.
  - destruct inv as (init & none & conn). auto.
  - destruct inv as (init & none & conn). auto.
  - exact inv.
  - destruct inv as (init & none & _). auto.
  - exact inv.
  - destruct inv as (init & none & conn & prom).
    unfold run_startWorkers, alloc. simpl.
    split; [exact init|]. split; [|split; [apply connected_set_up, conn|exact prom]].
    match goal with |- context [startWorkers ?c ?v ?m] =>
      destruct (startWorkers_mem c v m) as (ws & _ & fs & _ & works);
        rewrite fs end.
    rewrite length_app, <- (length_map work ws), works, length_app. simpl. lia.
  - destruct inv as (init & some & conn & prom). auto.
  - destruct inv as (init & some & conn & prom). auto.
  - exact inv.
  - destruct inv as (init & some & conn & prom & closed).
    apply closeHiveConnection_settings in close as [same _].
    split; [exact init|]. split; [exact some|].
    split; [exact (set_up_other_client _ _ _ conn has same)|]. auto.
  - destruct (run_at s) as [| | | | | | | | | |[e|]]; simpl in *;
      try exact inv.
    all: destruct inv as (init & some & conn & prom & _); auto.
  - destruct (run_at s) as [| | | | | | | | | |[e|]]; simpl in *; exact inv.
  - apply worker_call_settings in call.
    assert (some : fibers (mem s) <> []) by (intros none; rewrite none in l; discriminate l).
    destruct (run_at s) as [| | | | | | | | | |[e|]]; simpl in *;
      try (destruct inv as (_ & none & _) || destruct inv as (_ & none);
           destruct (some none)).
    all: destruct inv as (init & fs & conn & rest_);
      (split; [exact init|]); (split; [exact fs|]);
      (split; [exact (set_up_other_client _ _ _ conn has call)|exact rest_])
      || (split; [exact (set_up_other_client _ _ _ conn has call)|]).
Qed.

(** X12.  When [Run] is called on an operator that is not initialized:
    the operator is initialized only once the Presto handle and the queryer
    made of it are stored, the Hive client made of the configuration is
    stored, the Prometheus client is made and the workers are started; when
    [Run] is about to start the workers, no fiber is running yet and the
    Hive client holds a connection (a worker may close it later, so being
    initialized does not tell that one is still stored); when [Run] returns
    an error, the operator is not initialized and no worker was started;
    and [Run] returns nil only on an initialized operator after the stop
    channel was closed. *)
Theorem initialized_means_set_up (env : Env) (stop : option nat)
    (c : Chargeback) (s : System) :
  steps env stop (boot c) s ->
  isInitialized c = false ->
  (isInitialized (chargeback s) = true ->
   set_up (chargeback s) /\ promConn (chargeback s) = true /\
   (10 <= length (fibers (mem s)))%nat) /\
  (run_at s = AtStartWorkers ->
   connected (chargeback s) /\ promConn (chargeback s) = true /\
   fibers (mem s) = []) /\
  (forall err, run_at s = Returned (Some err) ->
     isInitialized (chargeback s) = false /\ fibers (mem s) = []) /\
  (run_at s = Returned None ->
   isInitialized (chargeback s) = true /\ stopped s = true).
Proof.
  intros run fresh_.
  assert (inv : run_stage s).
  { remember (boot c) as s0 eqn:start.
    induction run as [|s1 s2 s3 _ IH last].
    - subst. split; [exact fresh_|reflexivity].
    - eapply step_run_stage; [exact last|apply IH, start]. }
  unfold run_stage, isInitialized in *. split; [|split; [|split]].
  - intros init.
    destruct (run_at s) as [| | | | | | | | | |[e|]]; simpl in inv;
      try (destruct inv as [no _]; rewrite no in init; discriminate init).
    all: destruct inv as (_ & some & conn & prom & _) || destruct inv as (_ & some & conn & prom);
      auto.
  - intros at_. rewrite at_ in inv. destruct inv as (_ & none & conn & prom).
    auto.
  - intros err at_. rewrite at_ in inv. exact inv.
  - intros at_. rewrite at_ in inv. destruct inv as (init & _ & _ & _ & closed).
    auto.
Qed.

(** The sample run is initialized, with the Presto handle, the Hive
    client, the Prometheus client and its eleven fibers. *)
Lemma initialized_means_set_up_witness :
  (isInitialized (chargeback sampleRunning) = true ->
   set_up (chargeback sampleRunning) /\
   promConn (chargeback sampleRunning) = true /\
   (10 <= length (fibers (mem sampleRunning)))%nat) /\
  (run_at sampleRunning = AtStartWorkers ->
   connected (chargeback sampleRunning) /\
   promConn (chargeback sampleRunning) = true /\
   fibers (mem sampleRunning) = []) /\
  (forall err, run_at sampleRunning = Returned (Some err) ->
     isInitialized (chargeback sampleRunning) = false /\
     fibers (mem sampleRunning) = []) /\
  (run_at sampleRunning = Returned None ->
   isInitialized (chargeback sampleRunning) = true /\
   stopped sampleRunning = true).
Proof.
  apply (initialized_means_set_up cleanStart (Some 0%nat) exampleOperator
           sampleRunning).
  - exact sampleRunning_reachable.
  - reflexivity.
Defined.

(** ** All seven informers and queues *)

Lemma HasSynced_from_all synced todo :
  HasSynced_from synced todo = true <-> forall k, In k todo -> synced k = true.
Proof.
  induction todo as [|k todo IH]; simpl.
  - split; [intros _ k []|reflexivity].
  - destruct (synced k) eqn:s.
    + rewrite IH. split.
      * intros all k' [<-|in_]; [exact s|apply all, in_].
      * intros all k' in_. apply all. right. exact in_.
    + split; [discriminate|]. intros all.
      rewrite (all k) in s by (left; reflexivity). discriminate s.
Qed.

Lemma WaitForCacheSync_from_spec waits todo :
  (fst (WaitForCacheSync_from waits todo) = true <->
   forall k, In k todo -> waits k = true) /\
  exists later,
    todo = snd (WaitForCacheSync_from waits todo) ++ later /\
    (fst (WaitForCacheSync_from waits todo) = true -> later = []) /\
    (fst (WaitForCacheSync_from waits todo) = false ->
     exists before k,
       snd (WaitForCacheSync_from waits todo) = before ++ [k] /\
       waits k = false /\ forall k', In k' before -> waits k' = true).
Proof.
  induction todo as [|k todo (all & later & split_ & done & failed)]; simpl.
  - split; [split; [intros _ k []|reflexivity]|].
    exists []. repeat split. discriminate.
  - destruct (waits k) eqn:wk; simpl.
    + destruct (WaitForCacheSync_from waits todo) as [r waited]. simpl in *.
      split.
      * rewrite all. split.
        -- intros rest k' [<-|in_]; [exact wk|apply rest, in_].
        -- intros rest k' in_. apply rest. right. exact in_.
      * exists later. split; [f_equal; exact split_|]. split; [exact done|].
        intros no. destruct (failed no) as (before & k' & -> & wk' & good).
        exists (k :: before), k'. split; [reflexivity|]. split; [exact wk'|].
        intros k'' [<-|in_]; [exact wk|apply good, in_].
    + split.
      * split; [discriminate|]. intros rest.
        rewrite (rest k) in wk by (left; reflexivity). discriminate wk.
      * exists todo. split; [reflexivity|]. split; [discriminate|].
        intros _. exists [], k. repeat split; [exact wk|intros k' []].
Qed.

Section AllSeven.
Context {Q R : Type} `{RateLimitingInterface Q}.
Context (handleScheduledReportDeleted : Object -> Operator Q R -> Operator Q R).

Lemma informerList_complete (k : Kind) :
  In k (informerList (setupInformers handleScheduledReportDeleted)).
Proof. destruct k; simpl; tauto. Qed.

(** X13.  The operator has one informer and one queue for each of the seven
    kinds, listed once each and in the same order, and [ShutdownQueues]
    shuts down every one of the seven queues exactly once and touches
    nothing else. *)
Theorem ShutdownQueues_shuts_every_queue :
  let inf := setupInformers handleScheduledReportDeleted in
  NoDup (informerList inf) /\ (forall k, In k (informerList inf)) /\
  queueList inf = informerList inf /\
  forall s k,
    queues (ShutdownQueues inf s) k = ShutDown (queues s k) /\
    rest (ShutdownQueues inf s) = rest s.
Proof.
  simpl. split; [|split; [|split; [reflexivity|]]].
  - repeat (apply NoDup_cons; split;
            [intros in_; repeat (apply elem_of_cons in in_ as [[=]|in_]);
             apply elem_of_nil in in_; exact in_|]).
    apply NoDup_nil. exact I.
  - apply informerList_complete.
  - intros s k. split; [destruct k|]; reflexivity.
Qed.

(** X14.  [HasSynced] answers true exactly when each of the seven
    informers has synced.  [WaitForCacheSync] returns true exactly when the
    wait for each of the seven succeeds, having waited for all of them in
    the order of the list; when it returns false, it has stopped at the
    first informer whose wait failed and has not waited for the ones after
    it. *)
Theorem informers_sync_all_seven (synced waits : Kind -> bool) :
  let inf := setupInformers handleScheduledReportDeleted in
  (HasSynced inf synced = true <-> forall k, synced k = true) /\
  (fst (WaitForCacheSync inf waits) = true <-> forall k, waits k = true) /\
  (fst (WaitForCacheSync inf waits) = true ->
   snd (WaitForCacheSync inf waits) = informerList inf) /\
  (fst (WaitForCacheSync inf waits) = false ->
   exists before k later,
     informerList inf = before ++ [k] ++ later /\
     snd (WaitForCacheSync inf waits) = before ++ [k] /\
     waits k = false /\ forall k', In k' before -> waits k' = true).
Proof.
  cbv zeta. unfold HasSynced, WaitForCacheSync.
  set (inf := setupInformers handleScheduledReportDeleted).
  destruct (WaitForCacheSync_from_spec waits (informerList inf))
    as (all & later & split_ & done & failed).
  split; [|split; [|split]].
  - rewrite HasSynced_from_all. split.
    + intros every k. apply every, informerList_complete.
    + intros every k _. apply every.
  - rewrite all. split.
    + intros every k. apply every, informerList_complete.
    + intros every k _. apply every.
  - intros yes. rewrite (done yes), app_nil_r in split_. symmetry. exact split_.
  - intros no. destruct (failed no) as (before & k & waited & wk & good).
    exists before, k, later. rewrite waited in split_.
    split; [rewrite split_, <- app_assoc; reflexivity|]. auto.
Qed.

End AllSeven.

(** ** The effort of [Query] *)

Lemma closes_app (a b : list Event) : closes (a ++ b) = (closes a + closes b)%nat.
Proof. unfold closes. rewrite List.filter_app, List.length_app. reflexivity. Qed.

Lemma closes_dialling (evs : list Event) : Forall dialling evs -> closes evs = 0%nat.
Proof.
  induction 1 as [|ev evs d _ IH]; [reflexivity|].
  destruct ev; try destruct d; exact IH.
Qed.

Section QueryEffort.
Context (env : Env) (query : string).

Lemma getHiveConnection_dials q w r q1 w1 :
  getHiveConnection env q w = Some (r, q1, w1) ->
  (connects w1 <= connects w + 14)%nat /\
  (hiveConn q <> None -> connects w1 = connects w).
Proof.
  unfold getHiveConnection. destruct (hiveConn q) as [c|].
  - intros [= _ _ <-]. split; [lia|reflexivity].
  - destruct (newHiveConn env q w) as [[r' w']|] eqn:loop; [|discriminate].
    destruct (newHiveConn_loop_shape env _ _ _ _ _ _ loop)
      as (errs & n & _ & cs & range & _).
    unfold connIterations in range.
    destruct r'; intros [= _ _ <-]; (split; [lia|intros no; destruct no; reflexivity]).
Qed.

Lemma closeHiveConnection_connects q w :
  connects (snd (closeHiveConnection q w)) = connects w.
Proof. rewrite closeHiveConnection_spec. destruct (hiveConn q); reflexivity. Qed.

Lemma Query_body_effort q w fl q1 w1 :
  Query_body env query q w = Some (fl, q1, w1) ->
  (connects w1 <= connects w + 14)%nat /\
  (hiveConn q <> None -> connects w1 = connects w) /\
  exists evs, events w1 = events w ++ evs /\ (closes evs <= 1)%nat /\
              (fl <> Continue -> closes evs = 0%nat).
Proof.
  intros body.
  destruct (Query_body_returns env query q w)
    as (fl' & q' & w' & evs & eq & ev & _ & _ & what).
  rewrite eq in body. injection body as -> -> ->.
  assert (dials : (connects w1 <= connects w + 14)%nat /\
                  (hiveConn q <> None -> connects w1 = connects w)).
  { revert eq. unfold Query_body.
    destruct (getHiveConnection env q w) as [[[r qa] wa]|] eqn:got; [|discriminate].
    destruct (getHiveConnection_dials _ _ _ _ _ got) as [le same].
    destruct r as [c|err].
    - unfold conn_Query. destruct (conn_Query_result env (queries wa) c query) as [err|].
      + destruct (retriable err).
        * pose proof (closeHiveConnection_connects qa
                        (emit (Queried c query (Some err))
                           {| now := now wa; connects := connects wa;
                              opens := opens wa; queries := S (queries wa);
                              selects := selects wa; events := events wa |})) as cc.
          destruct (closeHiveConnection qa _) as [qc wc]. simpl in cc.
          intros [= _ _ <-]. rewrite cc. auto.
        * intros [= _ _ <-]. auto.
      + intros [= _ _ <-]. auto.
    - destruct (retriable err).
      + pose proof (closeHiveConnection_connects qa wa) as cc.
        destruct (closeHiveConnection qa wa) as [qc wc]. simpl in cc.
        intros [= _ _ <-]. rewrite cc. auto.
      + intros [= _ _ <-]. auto. }
  split; [apply dials|]. split; [apply dials|].
  exists evs. split; [exact ev|].
  destruct fl as [[err|]|].
  - destruct what as (_ & [(_ & _ & ds)|(c & dial & _ & ds & ->)]).
    + rewrite (closes_dialling _ ds). split; [lia|reflexivity].
    + rewrite closes_app, (closes_dialling _ ds). split; [unfold closes; simpl; lia|reflexivity].
  - destruct what as (c & dial & _ & ds & ->).
    rewrite closes_app, (closes_dialling _ ds). split; [unfold closes; simpl; lia|reflexivity].
  - destruct what as (_ & err & dial & _ & ds & [(_ & ->)|(c & -> & _)]).
    + rewrite (closes_dialling _ ds). split; [lia|]. intros no. destruct no. reflexivity.
    + rewrite closes_app, (closes_dialling _ ds).
      split; [unfold closes; simpl; lia|]. intros no. destruct no. reflexivity.
Qed.

Lemma Query_from_effort left q w res q' w' :
  Query_from env left query q w = Some (res, q', w') ->
  (connects w' <= connects w + 14 * left)%nat /\
  exists evs, events w' = events w ++ evs /\
              (closes evs <= Nat.max left (match hiveConn q with Some _ => 1 | None => 0 end))%nat.
Proof.
  revert q w. induction left as [|left IH]; intros q w; simpl.
  - rewrite closeHiveConnection_spec. intros [= _ _ <-].
    destruct (hiveConn q); simpl.
    + split; [lia|]. exists [Closed n]. split; [reflexivity|unfold closes; simpl; lia].
    + split; [lia|]. exists []. rewrite app_nil_r. split; [reflexivity|unfold closes; simpl; lia].
  - destruct (Query_body env query q w) as [[[fl q1] w1]|] eqn:body; [|discriminate].
    destruct (Query_body_effort _ _ _ _ _ body)
      as (le1 & _ & evs1 & ev1 & c1 & quiet).
    assert (closed1 : fl = Continue -> hiveConn q1 = None).
    { intros ->.
      destruct (Query_body_returns env query q w)
        as (fl' & qb & wb & evsb & eq & _ & _ & _ & what).
      rewrite eq in body. injection body as -> -> ->. apply what. }
    destruct fl as [r|].
    + intros [= _ _ <-]. split; [lia|].
      exists evs1. split; [exact ev1|]. rewrite quiet by discriminate. lia.
    + intros run. destruct (IH _ _ run) as (le & evs & ev & c).
      rewrite (closed1 eq_refl) in c.
      split; [lia|]. exists (evs1 ++ evs).
      split; [rewrite ev, ev1, app_assoc; reflexivity|].
      rewrite closes_app. lia.
Qed.

End QueryEffort.

(** X15.  One call of [Query] dials at most 42 times, three runs of the
    connection loop, and closes at most 3 connections; an attempt made with
    a connection stored does not dial at all, so with a stored connection
    and a query that succeeds at once [Query] dials and closes nothing. *)
Theorem Query_bounded_effort (env : Env) (query : string) (q : hiveQueryer)
    (w : World) :
  exists res q' w' evs,
    Query env query q w = Some (res, q', w') /\
    events w' = events w ++ evs /\
    (connects w' <= connects w + 42)%nat /\
    (closes evs <= 3)%nat /\
    (forall c, hiveConn q = Some c ->
               conn_Query_result env (queries w) c query = None ->
               res = None /\ q' = q /\ connects w' = connects w /\
               evs = [Queried c query None]).
Proof.
  destruct (Query_from_returns env query maxRetries q w)
    as (res & q' & w' & evs & n & qn & wn & run & ev & _).
  exists res, q', w', evs. split; [exact run|]. split; [exact ev|].
  destruct (Query_from_effort env query _ _ _ _ _ _ run)
    as (dials & evs' & ev' & closed).
  assert (evs' = evs) as ->
    by (apply (app_inv_head (events w)); rewrite <- ev, ev'; reflexivity).
  unfold maxRetries in *. split; [lia|]. split; [destruct (hiveConn q); lia|].
  intros c stored ok. revert run.
  unfold Query, maxRetries. simpl. unfold Query_body, getHiveConnection, conn_Query.
  rewrite stored, ok. intros [= <- <- <-]. simpl in ev.
  repeat split. apply (app_inv_head (events w)). symmetry. exact ev.
Qed.

(** ** What [Run] starts and stops *)







